(** * nerfmeshes: a shallow embedding of the Python sources

  The development follows the four source files:
  - [src/model_nerf.py]   (modules [Config] and [NeRFModel]): configuration
    flattening and nesting, ray batches, the forward pass, training and
    validation steps;
  - [src/data/datasets.py] (module [Datasets]): ray generation, the caching
    dataset base class and the ScanNet, COLMAP and LLFF datasets;
  - [src/nerf/models.py]  (module [Models]): the "simple" model family;
  - [src/mesh_nerf.py]    (module [MeshNerf]): the mesh extraction tool.

  Further modules extend the four: [DatasetItems] (items, iteration and
  cache files of the datasets), [MeshTool] (sampling grid and recoloring
  batches), [Lightning] (the steps on the batches the datasets produce),
  [Hparams] (the flat form of a configuration) and [FlexibleShapes] (layer
  widths of the flexible model).

  Python values are modelled as the code uses them: integers as [Z],
  strings as [string], tuples and lists as [list], [None] as [option],
  dictionaries as insertion-ordered association lists, exceptions as a
  [result] type.  Floating point tensors and the neural network kernels are
  parameters of the sections that use them. *)

From Stdlib Require Import ZArith List String Ascii Bool Lia DecimalString.
From stdpp Require Import base option list strings gmap.

Set Default Proof Using "Type".
#[local] Set Warnings "-register-all".
#[local] Arguments String.append !_ _ / : simpl nomatch.

(** ** Python basics *)

Module Py.

(** The exceptions the modelled code can raise. *)
Inductive exn : Type :=
| ValueError (msg : string)
| TypeError (msg : string)
| IndexError (msg : string)
| AttributeError (msg : string)
| AssertionError (msg : string)
| ZeroDivisionError
| NotImplementedError (msg : string)
| UnboundLocalError (name : string)
| RuntimeError (msg : string)
| FileNotFoundError (path : string).

Inductive result (A : Type) : Type :=
| Ok (a : A)
| Raise (e : exn).
Arguments Ok {A} a.
Arguments Raise {A} e.

#[global] Instance result_ret : MRet result := fun A a => Ok a.
#[global] Instance result_bind : MBind result :=
  fun A B f m => match m with Ok a => f a | Raise e => Raise e end.

Definition is_ok {A} (r : result A) : bool :=
  match r with Ok _ => true | Raise _ => false end.

(** The [ValueError] of unpacking a sequence of [got] values into
    [expected] names. *)
Definition decimal (n : nat) : string := NilEmpty.string_of_uint (Nat.to_uint n).

Definition arity_error (expected got : nat) : exn :=
  ValueError
    (if expected <? got
     then "too many values to unpack (expected " +:+ decimal expected +:+ ")"
     else "not enough values to unpack (expected " +:+ decimal expected
          +:+ ", got " +:+ decimal got +:+ ")").

Definition is_arity_error (e : exn) : Prop :=
  exists expected got, expected <> got /\ e = arity_error expected got.

(** [a, b = x]: unpacking a sequence into exactly two names. *)
Definition unpack2 {A} (x : list A) : result (A * A) :=
  match x with
  | [a; b] => Ok (a, b)
  | _ => Raise (arity_error 2 (length x))
  end.

(** [a, b, c = x] *)
Definition unpack3 {A} (x : list A) : result (A * A * A) :=
  match x with
  | [a; b; c] => Ok (a, b, c)
  | _ => Raise (arity_error 3 (length x))
  end.

(** [a, b, c, d = x] *)
Definition unpack4 {A} (x : list A) : result (A * A * A * A) :=
  match x with
  | [a; b; c; d] => Ok (a, b, c, d)
  | _ => Raise (arity_error 4 (length x))
  end.

(** Truth value of an optional integer: [None] and [0] are false. *)
Definition truthy (x : option Z) : bool :=
  match x with
  | None => false
  | Some v => negb (v =? 0)%Z
  end.

(** [range(0, n)] *)
Definition range (n : Z) : list Z := map Z.of_nat (seq 0 (Z.to_nat n)).

(** [l[a:b]] for a sequence [l]: negative bounds count from the end and
    both bounds are clamped to the sequence. *)
Definition clamp_index (n i : Z) : Z :=
  let i' := if (i <? 0)%Z then (i + n)%Z else i in
  Z.max 0 (Z.min n i').

Definition slice {A} (l : list A) (a b : Z) : list A :=
  let n := Z.of_nat (length l) in
  let a' := clamp_index n a in
  let b' := clamp_index n b in
  take (Z.to_nat (b' - a')) (drop (Z.to_nat a') l).

(** [l[i]] for a Python list. *)
Definition list_get {A} (l : list A) (i : Z) : result A :=
  let n := Z.of_nat (length l) in
  let i' := if (i <? 0)%Z then (i + n)%Z else i in
  if (i' <? 0)%Z then Raise (IndexError "list index out of range")
  else match l !! Z.to_nat i' with
       | Some x => Ok x
       | None => Raise (IndexError "list index out of range")
       end.

(** [math.ceil(a / b)] on integers, [b] non-zero.  The quotient is formed
    in double precision by the code; it is exact below 2^53. *)
Definition ceil_div (a b : Z) : Z := (- ((- a) / b))%Z.

(** [int(a / b)]: true division, then truncation towards zero. *)
Definition int_truediv (a b : Z) : result Z :=
  if (b =? 0)%Z then Raise ZeroDivisionError else Ok (Z.quot a b).

(** *** posixpath *)

Definition startswith_sep (s : string) : bool :=
  match s with
  | String c _ => Ascii.eqb c "/"
  | EmptyString => false
  end.

Fixpoint endswith_sep (s : string) : bool :=
  match s with
  | EmptyString => false
  | String c EmptyString => Ascii.eqb c "/"
  | String _ s' => endswith_sep s'
  end.

(** [os.path.join(a, b)] *)
Definition path_join (a b : string) : string :=
  if startswith_sep b then b
  else if String.eqb a "" || endswith_sep a then a +:+ b
  else a +:+ "/" +:+ b.

(** [os.path.basename(p)]: what follows the last slash. *)
Fixpoint basename (p : string) : string :=
  match p with
  | EmptyString => EmptyString
  | String c p' =>
      if Ascii.eqb c "/" then basename p'
      else if existsb (Ascii.eqb "/") (list_ascii_of_string p')
           then basename p' else p
  end.

(** [s.endswith(suf)] *)
Fixpoint endswith (s suf : string) : bool :=
  String.eqb s suf ||
  match s with
  | EmptyString => false
  | String _ s' => endswith s' suf
  end.

End Py.

Import Py.

(** ** src/model_nerf.py: flattening and nesting configurations *)

Module Config.

(** *** Configuration trees

    A configuration is a Python [dict] from strings to values; a value is a
    nested mapping or a leaf (anything that is not a [MutableMapping]).
    Dictionaries keep their insertion order. *)

Inductive cfg_value (V : Type) : Type :=
| Leaf (x : V)
| Mapping (d : list (string * cfg_value V)).
Arguments Leaf {V} x.
Arguments Mapping {V} d.

(** [d.get(k)] *)
Fixpoint dict_get {A} (d : list (string * A)) (k : string) : option A :=
  match d with
  | [] => None
  | (k', v) :: d' => if String.eqb k' k then Some v else dict_get d' k
  end.

(** [d[k] = v]: an existing key keeps its position, a new one goes last. *)
Fixpoint dict_set {A} (d : list (string * A)) (k : string) (v : A) : list (string * A) :=
  match d with
  | [] => [(k, v)]
  | (k', v') :: d' =>
      if String.eqb k' k then (k', v) :: d' else (k', v') :: dict_set d' k v
  end.

(** [dict(items)] *)
Definition dict_of_items {A} (items : list (string * A)) : list (string * A) :=
  fold_left (fun d kv => dict_set d kv.1 kv.2) items [].

(** [new_key = parent_key + sep + k if parent_key else k] *)
Definition new_key (parent_key sep k : string) : string :=
  if String.eqb parent_key "" then k else parent_key +:+ sep +:+ k.

(** The items one entry [(k, v)] of the loop of [flatten_dict] adds; for a
    nested mapping these are the items of the recursive call's result. *)
Fixpoint flatten_entry {V} (parent_key sep k : string) (v : cfg_value V)
  : list (string * V) :=
  match v with
  | Mapping d =>
      dict_of_items
        (flat_map (fun kv => flatten_entry (new_key parent_key sep k) sep kv.1 kv.2) d)
  | Leaf x => [(new_key parent_key sep k, x)]
  end.

Definition flatten_dict {V} (d : list (string * cfg_value V))
  (parent_key : string) (sep : string) : list (string * V) :=
  dict_of_items (flat_map (fun kv => flatten_entry parent_key sep kv.1 kv.2) d).

Definition string_drop (n : nat) (s : string) : string :=
  String.substring n (String.length s - n) s.

(** [k.split(sep, 1)] for a non-empty separator: the part before the first
    occurrence of [sep] and, when there is one, the part after it. *)
Fixpoint split_once (sep k : string) : string * option string :=
  if String.prefix sep k then (EmptyString, Some (string_drop (String.length sep) k))
  else match k with
       | EmptyString => (EmptyString, None)
       | String c k' =>
           let hr := split_once sep k' in (String c hr.1, hr.2)
       end.

(** [_nest_dict_rec(k, v, out, sep)], returning the updated [out].  The
    recursion is on the remainder of the key, which gets shorter at every
    call; [fuel] bounds the number of calls.  The values of the flat
    dictionary are leaves, as [flatten_dict] produces them; a leaf found
    where a sub-mapping is needed has neither [setdefault] nor item
    assignment. *)
Fixpoint _nest_dict_rec {V} (fuel : nat) (k : string) (v : V)
  (out : list (string * cfg_value V)) (sep : string)
  : result (list (string * cfg_value V)) :=
  match fuel with
  | O => Raise (RuntimeError "maximum recursion depth exceeded")
  | S fuel' =>
      if String.eqb sep "" then Raise (ValueError "empty separator")
      else
        let kr := split_once sep k in
        match kr.2 with
        | Some rest =>
            (* out.setdefault(k, {}) *)
            match dict_get out kr.1 with
            | None =>
                sub ← _nest_dict_rec fuel' rest v [] sep;
                Ok (dict_set out kr.1 (Mapping sub))
            | Some (Mapping sub0) =>
                sub ← _nest_dict_rec fuel' rest v sub0 sep;
                Ok (dict_set out kr.1 (Mapping sub))
            | Some (Leaf _) =>
                match (split_once sep rest).2 with
                | Some _ => Raise (AttributeError "setdefault")
                | None => Raise (TypeError "object does not support item assignment")
                end
            end
        | None => Ok (dict_set out kr.1 (Leaf v))
        end
  end.

Definition nest_dict {V} (flat : list (string * V)) (sep : string)
  : result (list (string * cfg_value V)) :=
  fold_left
    (fun acc kv => out ← acc; _nest_dict_rec (S (String.length kv.1)) kv.1 kv.2 out sep)
    flat (Ok []).

(** The leaves of a configuration with the path of keys that leads to each,
    in insertion order. *)
Fixpoint leaves_entry {V} (k : string) (v : cfg_value V) : list (list string * V) :=
  match v with
  | Leaf x => [([k], x)]
  | Mapping d =>
      map (fun px => (k :: px.1, px.2)) (flat_map (fun kv => leaves_entry kv.1 kv.2) d)
  end.

Definition leaves {V} (d : list (string * cfg_value V)) : list (list string * V) :=
  flat_map (fun kv => leaves_entry kv.1 kv.2) d.

Definition leaf_values {V} (d : list (string * cfg_value V)) : list V :=
  map snd (leaves d).

(** Levels of nesting: a flat mapping has one. *)
Fixpoint depth_value {V} (v : cfg_value V) : nat :=
  match v with
  | Leaf _ => 0
  | Mapping d => S (list_max (map (fun kv => depth_value kv.2) d))
  end.

Definition depth {V} (d : list (string * cfg_value V)) : nat :=
  depth_value (Mapping d).

Definition str_nonempty (s : string) : bool := negb (String.eqb s "").

Definition char_free (c : ascii) (s : string) : bool :=
  negb (existsb (Ascii.eqb c) (list_ascii_of_string s)).

Fixpoint nodup_keys (ks : list string) : bool :=
  match ks with
  | [] => true
  | k :: ks' => negb (existsb (String.eqb k) ks') && nodup_keys ks'
  end.

(** Keys a separator character [c] can encode: at every level the keys are
    distinct (as in any dictionary), non-empty and free of [c]. *)
Fixpoint wf_value {V} (c : ascii) (v : cfg_value V) : bool :=
  match v with
  | Leaf _ => true
  | Mapping d =>
      nodup_keys (map fst d)
      && forallb (fun kv => str_nonempty kv.1 && char_free c kv.1 && wf_value c kv.2) d
  end.

Definition wf_cfg {V} (c : ascii) (d : list (string * cfg_value V)) : bool :=
  wf_value c (Mapping d).

(** A sub-mapping that holds no leaf leaves no trace in the flat form. *)
Fixpoint prune_entry {V} (k : string) (v : cfg_value V) : list (string * cfg_value V) :=
  match v with
  | Leaf x => [(k, Leaf x)]
  | Mapping d =>
      match flat_map (fun kv => prune_entry kv.1 kv.2) d with
      | [] => []
      | d' => [(k, Mapping d')]
      end
  end.

Definition prune {V} (d : list (string * cfg_value V)) : list (string * cfg_value V) :=
  flat_map (fun kv => prune_entry kv.1 kv.2) d.

Fixpoint no_empty_mapping_value {V} (v : cfg_value V) : bool :=
  match v with
  | Leaf _ => true
  | Mapping d =>
      negb (Nat.eqb (length d) 0) && forallb (fun kv => no_empty_mapping_value kv.2) d
  end.

Definition no_empty_mapping {V} (d : list (string * cfg_value V)) : bool :=
  forallb (fun kv => no_empty_mapping_value kv.2) d.

(** Two configurations used below. *)
Definition cfg_clash : list (string * cfg_value Z) :=
  [("nerf", Mapping [("train", Mapping [("num", Leaf 1%Z)]);
                     ("train_num", Leaf 2%Z)])].

Definition cfg_dotted : list (string * cfg_value Z) :=
  [("nerf", Mapping [("train", Mapping [("perturb", Leaf 1%Z); ("chunksize", Leaf 2%Z)]);
                     ("validation", Mapping [("perturb", Leaf 0%Z)])]);
   ("dataset", Mapping [("near", Leaf 2%Z); ("far", Leaf 6%Z)])].

(** The keys of a dictionary, and a dictionary with its keys renamed. *)
Definition keys {A} (d : list (string * A)) : list string := map fst d.

Definition map_key {A} (f : string -> string) (d : list (string * A)) : list (string * A) :=
  map (fun kv => (f kv.1, kv.2)) d.

Section SeparatorDefs.
Context {V : Type} (c : ascii).

(** What can follow a key inside a flat key: nothing, or a separator and
    the rest of the path. *)
Definition key_tail (s : string) : Prop :=
  s = EmptyString \/ exists r, s = String c r.

(** An entry of a well-formed mapping. *)
Definition entry_ok (kv : string * cfg_value V) : Prop :=
  kv.1 <> EmptyString /\ char_free c kv.1 = true /\ wf_value c kv.2 = true.

(** The loop of [nest_dict] started on any accumulator. *)
Definition nest_from (acc : result (list (string * cfg_value V)))
  (flat : list (string * V)) : result (list (string * cfg_value V)) :=
  fold_left
    (fun acc kv =>
       out ← acc;
       _nest_dict_rec (S (String.length kv.1)) kv.1 kv.2 out (String c EmptyString))
    flat acc.

End SeparatorDefs.

(** *** Facts on dictionaries and on splitting keys *)

(** The items of a nested mapping are those of the recursive call
    [flatten_dict(v, new_key, sep)]. *)
Lemma flatten_entry_recursive_call {V} parent_key sep k (d : list (string * cfg_value V)) :
  flatten_entry parent_key sep k (Mapping d)
  = flatten_dict d (new_key parent_key sep k) sep.
Proof. reflexivity. Qed.

Lemma cfg_value_ind' {V} (P : cfg_value V -> Prop) :
  (forall x, P (Leaf x)) ->
  (forall d, Forall (fun kv => P kv.2) d -> P (Mapping d)) ->
  forall v, P v.
Proof.
  intros HL HM. fix IH 1. intros [x|d]; [apply HL|].
  apply HM. induction d as [|[k v] d IHd]; constructor; [apply IH | apply IHd].
Qed.

Lemma dict_set_fresh {A} (d : list (string * A)) k v :
  k ∉ keys d -> dict_set d k v = d ++ [(k, v)].
Proof.
  induction d as [|[k' v'] d IH]; intros Hk; simpl; [done|].
  unfold keys in Hk. simpl in Hk. apply not_elem_of_cons in Hk as [Hne Hk].
  destruct (String.eqb_spec k' k) as [->|_]; [done|].
  by rewrite IH.
Qed.

Lemma dict_get_fresh {A} (d : list (string * A)) k :
  k ∉ keys d -> dict_get d k = None.
Proof.
  induction d as [|[k' v'] d IH]; intros Hk; simpl; [done|].
  unfold keys in Hk. simpl in Hk. apply not_elem_of_cons in Hk as [Hne Hk].
  destruct (String.eqb_spec k' k) as [->|_]; [done|]. by apply IH.
Qed.

Lemma dict_get_last {A} (d : list (string * A)) k v :
  k ∉ keys d -> dict_get (d ++ [(k, v)]) k = Some v.
Proof.
  induction d as [|[k' v'] d IH]; intros Hk; simpl.
  - by rewrite String.eqb_refl.
  - unfold keys in Hk. simpl in Hk. apply not_elem_of_cons in Hk as [Hne Hk].
    destruct (String.eqb_spec k' k) as [->|_]; [done|]. by apply IH.
Qed.

Lemma dict_set_last {A} (d : list (string * A)) k v w :
  k ∉ keys d -> dict_set (d ++ [(k, v)]) k w = d ++ [(k, w)].
Proof.
  induction d as [|[k' v'] d IH]; intros Hk; simpl.
  - by rewrite String.eqb_refl.
  - unfold keys in Hk. simpl in Hk. apply not_elem_of_cons in Hk as [Hne Hk].
    destruct (String.eqb_spec k' k) as [->|_]; [done|]. by rewrite IH.
Qed.

Lemma dict_set_not_nil {A} (d : list (string * A)) k v : dict_set d k v <> [].
Proof. destruct d as [|[k' v'] d]; simpl; [done|]. by destruct (String.eqb k' k). Qed.

Lemma dict_of_items_from {A} (items acc : list (string * A)) :
  NoDup (keys acc ++ keys items) ->
  fold_left (fun d kv => dict_set d kv.1 kv.2) items acc = acc ++ items.
Proof.
  revert acc. induction items as [|[k v] items IH]; intros acc Hnd; simpl.
  - by rewrite app_nil_r.
  - assert (Hk : k ∉ keys acc).
    { apply NoDup_app in Hnd as (_ & Hd & _). intros Hin. apply (Hd _ Hin). left. }
    rewrite dict_set_fresh by done. rewrite IH.
    + by rewrite <- app_assoc.
    + unfold keys in *. rewrite map_app. simpl. rewrite <- app_assoc. done.
Qed.

Lemma dict_of_items_nodup {A} (items : list (string * A)) :
  NoDup (keys items) -> dict_of_items items = items.
Proof. intros Hnd. unfold dict_of_items. by rewrite dict_of_items_from. Qed.

Lemma dict_set_map_key {A} (f : string -> string) (d : list (string * A)) k v :
  (forall a b, f a = f b -> a = b) ->
  dict_set (map_key f d) (f k) v = map_key f (dict_set d k v).
Proof.
  intros Hf. induction d as [|[k' v'] d IH]; simpl; [done|].
  destruct (String.eqb_spec k' k) as [->|Hne].
  - by rewrite String.eqb_refl.
  - destruct (String.eqb_spec (f k') (f k)) as [Heq|_]; [by apply Hf in Heq|].
    by rewrite IH.
Qed.

Lemma dict_of_items_map_key {A} (f : string -> string) (items : list (string * A)) :
  (forall a b, f a = f b -> a = b) ->
  dict_of_items (map_key f items) = map_key f (dict_of_items items).
Proof.
  intros Hf. unfold dict_of_items.
  change (@nil (string * A)) with (map_key f (@nil (string * A))) at 1.
  generalize (@nil (string * A)) as acc.
  induction items as [|[k v] items IH]; intros acc; simpl; [done|].
  rewrite dict_set_map_key by done. apply IH.
Qed.

Lemma nodup_keys_NoDup ks : nodup_keys ks = true -> NoDup ks.
Proof.
  induction ks as [|k ks IH]; simpl; [constructor|].
  intros [Hk Hks]%andb_prop. constructor; [|by apply IH].
  intros Hin. apply negb_true_iff in Hk.
  assert (existsb (String.eqb k) ks = true); [|congruence].
  apply existsb_exists. exists k. split; [by apply list_elem_of_In|apply String.eqb_refl].
Qed.

Section SeparatorChar.
Context {V : Type} (c : ascii).

#[local] Abbreviation sep := (String c EmptyString).

Lemma char_free_cons a k :
  char_free c (String a k) = true -> c <> a /\ char_free c k = true.
Proof.
  unfold char_free. simpl. intros [H1 H2]%negb_true_iff%orb_false_elim.
  split; [|by rewrite H2]. intros ->. by rewrite Ascii.eqb_refl in H1.
Qed.

Lemma substring_all s : String.substring 0 (String.length s) s = s.
Proof. induction s as [|a s IH]; simpl; [done|]. by rewrite IH. Qed.

Lemma string_drop_1 a s : string_drop 1 (String a s) = s.
Proof.
  unfold string_drop. simpl. rewrite Nat.sub_0_r. apply substring_all.
Qed.

Lemma prefix_sep_cons a k :
  String.prefix sep (String a k) = if Ascii.eqb c a then true else false.
Proof.
  simpl. destruct (ascii_dec c a) as [->|Hne].
  - rewrite Ascii.eqb_refl. by destruct k.
  - by destruct (Ascii.eqb_spec c a).
Qed.

Lemma split_once_free k :
  char_free c k = true -> split_once sep k = (k, None).
Proof.
  induction k as [|a k IH]; intros Hk; [done|].
  apply char_free_cons in Hk as [Hne Hk].
  cbn [split_once]. rewrite prefix_sep_cons.
  destruct (Ascii.eqb_spec c a) as [->|_]; [done|].
  by rewrite IH.
Qed.

Lemma split_once_join k r :
  char_free c k = true -> split_once sep (k +:+ String c r) = (k, Some r).
Proof.
  induction k as [|a k IH]; intros Hk.
  - cbn [String.append split_once]. rewrite prefix_sep_cons, Ascii.eqb_refl.
    cbn [String.length]. by rewrite string_drop_1.
  - apply char_free_cons in Hk as [Hne Hk].
    cbn [String.append split_once]. rewrite prefix_sep_cons.
    destruct (Ascii.eqb_spec c a) as [->|_]; [done|].
    by rewrite IH.
Qed.

Lemma split_once_shorter k h r :
  split_once sep k = (h, Some r) -> String.length r < String.length k.
Proof.
  revert h. induction k as [|a k IH]; intros h.
  - simpl. discriminate.
  - cbn [split_once]. rewrite prefix_sep_cons.
    destruct (Ascii.eqb c a).
    + cbn [String.length]. rewrite string_drop_1. intros [= _ <-]. simpl. lia.
    + destruct (split_once sep k) as [h' r'] eqn:E. simpl. intros [= _ ->].
      specialize (IH _ eq_refl). lia.
Qed.

(** Two keys free of the separator agree as soon as they agree up to
    their tails. *)
Lemma key_tail_inj k k' s s' :
  char_free c k = true -> char_free c k' = true ->
  key_tail c s -> key_tail c s' ->
  k +:+ s = k' +:+ s' -> k = k'.
Proof.
  revert k'. induction k as [|a k IH]; intros [|a' k'] Hk Hk' Hs Hs' Heq.
  - done.
  - apply char_free_cons in Hk' as [Hne _]. simpl in Heq.
    destruct Hs as [->|[r ->]]; [done|]. by injection Heq as -> _.
  - apply char_free_cons in Hk as [Hne _]. simpl in Heq.
    destruct Hs' as [->|[r ->]]; [done|]. by injection Heq as -> _.
  - apply char_free_cons in Hk as [_ Hk]. apply char_free_cons in Hk' as [_ Hk'].
    simpl in Heq. injection Heq as -> Heq. f_equal. by eapply IH.
Qed.

Lemma append_inj_l (p a b : string) : p +:+ a = p +:+ b -> a = b.
Proof. induction p as [|x p IH]; simpl; [done|]. intros [= H]. by apply IH. Qed.

Lemma append_assoc (a b d : string) : (a +:+ b) +:+ d = a +:+ b +:+ d.
Proof. induction a as [|x a IH]; simpl; [done|]. by rewrite IH. Qed.

Lemma append_nil_r (a : string) : a +:+ EmptyString = a.
Proof. induction a as [|x a IH]; simpl; [done|]. by rewrite IH. Qed.

Lemma new_key_inj parent a b : new_key parent sep a = new_key parent sep b -> a = b.
Proof.
  unfold new_key. destruct (String.eqb parent ""); [done|].
  intros H%append_inj_l. by injection H.
Qed.

Lemma new_key_nested parent k s :
  k <> EmptyString ->
  new_key (new_key parent sep k) sep s = new_key parent sep (new_key k sep s).
Proof.
  intros Hk. unfold new_key.
  destruct (String.eqb_spec k "") as [->|_]; [done|].
  destruct (String.eqb_spec parent "") as [->|Hp].
  - by destruct (String.eqb_spec k "").
  - destruct (String.eqb_spec (parent +:+ sep +:+ k) "") as [He|_].
    + destruct parent; [done|discriminate].
    + by rewrite !append_assoc.
Qed.

(** *** Flattening a well-formed configuration *)

Lemma wf_value_mapping (d : list (string * cfg_value V)) :
  wf_value c (Mapping d) = true -> NoDup (keys d) /\ Forall (entry_ok c) d.
Proof.
  cbn [wf_value]. intros [Hnd Hall]%andb_prop. split.
  - by apply nodup_keys_NoDup.
  - apply Forall_forall. intros kv Hin.
    rewrite forallb_forall in Hall. apply list_elem_of_In in Hin.
    specialize (Hall _ Hin). apply andb_prop in Hall as [[H1 H2]%andb_prop H3].
    repeat split; try done.
    unfold str_nonempty in H1. intros He. rewrite He in H1. done.
Qed.

Lemma map_key_compose {A} (f g : string -> string) (d : list (string * A)) :
  map_key f (map_key g d) = map_key (fun s => f (g s)) d.
Proof. unfold map_key. rewrite map_map. done. Qed.

Lemma map_key_ext {A} (f g : string -> string) (d : list (string * A)) :
  (forall s, f s = g s) -> map_key f d = map_key g d.
Proof. intros H. unfold map_key. apply map_ext. intros [k v]. simpl. by rewrite H. Qed.

Lemma map_key_app {A} (f : string -> string) (d1 d2 : list (string * A)) :
  map_key f (d1 ++ d2) = map_key f d1 ++ map_key f d2.
Proof. unfold map_key. apply map_app. Qed.

Lemma keys_map_key {A} (f : string -> string) (d : list (string * A)) :
  keys (map_key f d) = map f (keys d).
Proof. unfold keys, map_key. rewrite !map_map. done. Qed.

Lemma flatten_entry_parent parent k (v : cfg_value V) :
  k <> EmptyString -> wf_value c v = true ->
  flatten_entry parent sep k v
  = map_key (new_key parent sep) (flatten_entry EmptyString sep k v).
Proof.
  revert parent k. induction v as [x|d IH] using cfg_value_ind'; intros parent k Hk Hwf.
  - done.
  - apply wf_value_mapping in Hwf as [_ Hok].
    assert (Hflat : forall p,
      flat_map (fun kv => flatten_entry p sep kv.1 kv.2) d
      = map_key (new_key p sep)
          (flat_map (fun kv => flatten_entry EmptyString sep kv.1 kv.2) d)).
    { intros p. induction d as [|[k' v'] d IHd]; [done|].
      apply Forall_cons in IH as [IH1 IH2]. apply Forall_cons in Hok as [Hok1 Hok2].
      destruct Hok1 as (Hk' & _ & Hwf'). simpl in *.
      rewrite map_key_app. rewrite (IH1 p k' Hk' Hwf'). f_equal. by apply IHd. }
    cbn [flatten_entry]. rewrite (Hflat (new_key parent sep k)).
    rewrite (Hflat (new_key EmptyString sep k)).
    rewrite !dict_of_items_map_key by apply new_key_inj.
    rewrite map_key_compose. apply map_key_ext. intros s.
    by rewrite new_key_nested.
Qed.

Lemma new_key_nonempty k s : k <> EmptyString -> new_key k sep s = k +:+ String c s.
Proof. intros Hk. unfold new_key. by destruct (String.eqb_spec k ""). Qed.

Lemma flatten_entry_mapping k (d : list (string * cfg_value V)) :
  k <> EmptyString -> wf_value c (Mapping d) = true ->
  flatten_entry EmptyString sep k (Mapping d)
  = map_key (fun s => k +:+ String c s) (flatten_dict d EmptyString sep).
Proof.
  intros Hk Hwf. cbn [flatten_entry]. unfold flatten_dict.
  change (new_key EmptyString sep k) with k.
  rewrite <- dict_of_items_map_key by (intros a b H%append_inj_l; by injection H).
  f_equal. apply wf_value_mapping in Hwf as [_ Hok].
  induction d as [|[k' v'] d IHd]; [done|].
  apply Forall_cons in Hok as [(Hk' & _ & Hwf') Hok2]. simpl in *.
  rewrite map_key_app, <- IHd by done. f_equal.
  rewrite flatten_entry_parent by done.
  apply map_key_ext. intros s. by apply new_key_nonempty.
Qed.

Lemma flatten_entry_key_shape k (v : cfg_value V) x :
  k <> EmptyString -> wf_value c v = true ->
  x ∈ keys (flatten_entry EmptyString sep k v) ->
  exists s, x = k +:+ s /\ key_tail c s.
Proof.
  intros Hk Hwf Hx. destruct v as [y|d].
  - apply list_elem_of_singleton in Hx as ->. exists EmptyString.
    split; [by rewrite append_nil_r | by left].
  - rewrite flatten_entry_mapping, keys_map_key in Hx by done.
    apply list_elem_of_fmap in Hx as (s & -> & _).
    exists (String c s). split; [done | right; by exists s].
Qed.

Lemma keys_flat_map {A B} (f : A -> list (string * B)) (l : list A) :
  keys (flat_map f l) = flat_map (fun a => keys (f a)) l.
Proof.
  induction l as [|a l IH]; [done|]. unfold keys in *. simpl.
  by rewrite map_app, IH.
Qed.

Lemma flatten_items_NoDup (v : cfg_value V) :
  wf_value c v = true ->
  match v with
  | Leaf _ => True
  | Mapping d =>
      NoDup (keys (flat_map (fun kv => flatten_entry EmptyString sep kv.1 kv.2) d))
  end.
Proof.
  induction v as [x|d IH] using cfg_value_ind'; intros Hwf; [done|].
  apply wf_value_mapping in Hwf as [Hnd Hok].
  induction d as [|[k v] d IHd]; [constructor|].
  apply Forall_cons in IH as [IH1 IH2]. apply Forall_cons in Hok as [Hok1 Hok2].
  destruct Hok1 as (Hk & Hfree & Hwf). simpl in Hk, Hfree, Hwf, IH1.
  unfold keys in Hnd. simpl in Hnd. apply NoDup_cons in Hnd as [Hnotin Hnd].
  rewrite keys_flat_map. simpl. apply NoDup_app. split; [|split].
  - destruct v as [y|m].
    + apply NoDup_singleton.
    + rewrite flatten_entry_mapping, keys_map_key by done.
      apply NoDup_fmap_2_strong.
      * intros a b _ _ H%append_inj_l. by injection H.
      * unfold flatten_dict. specialize (IH1 Hwf). simpl in IH1.
        by rewrite dict_of_items_nodup.
  - intros x Hx Hx'.
    apply (flatten_entry_key_shape k v x Hk Hwf) in Hx as (s & -> & Hs).
    apply list_elem_of_In, in_flat_map in Hx' as ([k' v'] & Hin & Hx').
    apply list_elem_of_In in Hin, Hx'.
    rewrite Forall_forall in Hok2. destruct (Hok2 _ Hin) as (Hk' & Hfree' & Hwf').
    simpl in Hk', Hfree', Hwf', Hx'.
    apply flatten_entry_key_shape in Hx' as (s' & Heq & Hs'); try done.
    assert (k = k') as -> by exact (key_tail_inj k k' s s' Hfree Hfree' Hs Hs' Heq).
    apply Hnotin. apply list_elem_of_fmap. by exists (k', v').
  - rewrite <- keys_flat_map. by apply IHd.
Qed.

Lemma flatten_dict_wf (d : list (string * cfg_value V)) :
  wf_cfg c d = true ->
  flatten_dict d EmptyString sep
  = flat_map (fun kv => flatten_entry EmptyString sep kv.1 kv.2) d.
Proof.
  intros Hwf. unfold flatten_dict. apply dict_of_items_nodup.
  by apply (flatten_items_NoDup (Mapping d)).
Qed.

(** *** Nesting the flat form again *)

Lemma nest_from_raise e (flat : list (string * V)) :
  nest_from c (Raise e) flat = Raise e.
Proof. induction flat as [|kv flat IH]; [done|]. simpl. apply IH. Qed.

Lemma nest_from_app acc (l1 l2 : list (string * V)) :
  nest_from c acc (l1 ++ l2) = nest_from c (nest_from c acc l1) l2.
Proof. unfold nest_from. apply fold_left_app. Qed.

Lemma nest_from_cons out k (v : V) flat :
  nest_from c (Ok out) ((k, v) :: flat)
  = nest_from c (_nest_dict_rec (S (String.length k)) k v out sep) flat.
Proof. reflexivity. Qed.

Lemma map_key_cons {A} (f : string -> string) k (v : A) d :
  map_key f ((k, v) :: d) = (f k, v) :: map_key f d.
Proof. reflexivity. Qed.

(** The fuel never runs out once it exceeds the length of the key. *)
Lemma nest_rec_fuel n m k (v : V) out :
  String.length k < n -> String.length k < m ->
  _nest_dict_rec n k v out sep = _nest_dict_rec m k v out sep.
Proof.
  revert m k out. induction n as [|n IH]; intros m k out Hn Hm; [lia|].
  destruct m as [|m]; [lia|]. cbn [_nest_dict_rec].
  destruct (split_once sep k) as [h [r|]] eqn:E; cbn [fst snd]; [|done].
  apply split_once_shorter in E.
  destruct (String.eqb sep ""); [done|].
  destruct (dict_get out h) as [[x|sub0]|]; [done| |];
    rewrite (IH m r) by lia; done.
Qed.

Lemma nest_rec_leaf n k (v : V) out :
  char_free c k = true ->
  _nest_dict_rec (S n) k v out sep = Ok (dict_set out k (Leaf v)).
Proof. intros Hk. cbn [_nest_dict_rec]. by rewrite split_once_free. Qed.

Lemma nest_rec_descend k r (v : V) out :
  char_free c k = true ->
  _nest_dict_rec (S (String.length (k +:+ String c r))) (k +:+ String c r) v out sep
  = match dict_get out k with
    | None =>
        sub ← _nest_dict_rec (S (String.length r)) r v [] sep;
        Ok (dict_set out k (Mapping sub))
    | Some (Mapping sub0) =>
        sub ← _nest_dict_rec (S (String.length r)) r v sub0 sep;
        Ok (dict_set out k (Mapping sub))
    | Some (Leaf _) =>
        match (split_once sep r).2 with
        | Some _ => Raise (AttributeError "setdefault")
        | None => Raise (TypeError "object does not support item assignment")
        end
    end.
Proof.
  intros Hk. cbn [_nest_dict_rec].
  pose proof (split_once_join k r Hk) as E. rewrite E. cbn [fst snd].
  apply split_once_shorter in E. simpl String.eqb. cbv iota.
  destruct (dict_get out k) as [[x|sub0]|]; [done| |];
    rewrite (nest_rec_fuel _ (S (String.length r))) by lia; done.
Qed.

Lemma nest_rec_not_nil n k (v : V) out o :
  _nest_dict_rec n k v out sep = Ok o -> o <> [].
Proof.
  destruct n as [|n]; [done|]. cbn [_nest_dict_rec].
  destruct (String.eqb sep ""); [done|].
  destruct (split_once sep k) as [h [r|]]; cbn [fst snd].
  - destruct (dict_get out h) as [[x|sub0]|].
    + by destruct (split_once sep r).2.
    + destruct (_nest_dict_rec n r v sub0 sep); [|done].
      intros [= <-]. apply dict_set_not_nil.
    + destruct (_nest_dict_rec n r v [] sep); [|done].
      intros [= <-]. apply dict_set_not_nil.
  - intros [= <-]. apply dict_set_not_nil.
Qed.

Lemma nest_from_not_nil (flat : list (string * V)) out o :
  nest_from c (Ok out) flat = Ok o -> out <> [] \/ flat <> [] -> o <> [].
Proof.
  revert out. induction flat as [|[k v] flat IH]; intros out Ho Hne.
  - injection Ho as <-. by destruct Hne.
  - rewrite nest_from_cons in Ho.
    destruct (_nest_dict_rec (S (String.length k)) k v out sep) as [o1|e] eqn:E.
    + apply (IH o1 Ho). left. by eapply nest_rec_not_nil.
    + by rewrite nest_from_raise in Ho.
Qed.

(** Items below one key [k] all go into the sub-mapping stored at [k]. *)
Lemma nest_from_into k out s (items : list (string * V)) :
  k ∉ keys out -> char_free c k = true ->
  nest_from c (Ok (out ++ [(k, Mapping s)])) (map_key (fun r => k +:+ String c r) items)
  = (sub ← nest_from c (Ok s) items; Ok (out ++ [(k, Mapping sub)])).
Proof.
  intros Hk Hfree. revert s. induction items as [|[r v] items IH]; intros s; [done|].
  rewrite map_key_cons, !nest_from_cons.
  rewrite nest_rec_descend, dict_get_last by done.
  destruct (_nest_dict_rec (S (String.length r)) r v s sep) as [sub|e].
  - cbn [mbind result_bind]. rewrite dict_set_last by done. apply IH.
  - cbn [mbind result_bind]. by rewrite !nest_from_raise.
Qed.

Lemma nest_from_into_fresh k out (items : list (string * V)) :
  k ∉ keys out -> char_free c k = true -> items <> [] ->
  nest_from c (Ok out) (map_key (fun r => k +:+ String c r) items)
  = (sub ← nest_from c (Ok []) items; Ok (out ++ [(k, Mapping sub)])).
Proof.
  intros Hk Hfree Hne. destruct items as [|[r v] items]; [done|].
  rewrite map_key_cons, !nest_from_cons.
  rewrite nest_rec_descend, dict_get_fresh by done.
  destruct (_nest_dict_rec (S (String.length r)) r v [] sep) as [sub|e].
  - cbn [mbind result_bind]. rewrite dict_set_fresh by done.
    apply (nest_from_into k out sub items Hk Hfree).
  - cbn [mbind result_bind]. by rewrite !nest_from_raise.
Qed.

Lemma prune_cons k (v : cfg_value V) d :
  prune ((k, v) :: d) = prune_entry k v ++ prune d.
Proof. reflexivity. Qed.

Lemma prune_entry_mapping k (m : list (string * cfg_value V)) :
  prune_entry k (Mapping m)
  = match prune m with [] => [] | _ :: _ => [(k, Mapping (prune m))] end.
Proof. unfold prune. cbn [prune_entry]. by destruct (flat_map _ m). Qed.

(** Nesting the items of a well-formed mapping appends its pruned form to
    an accumulator that holds none of its keys. *)
Lemma nest_flatten_items (v : cfg_value V) :
  wf_value c v = true ->
  match v with
  | Leaf _ => True
  | Mapping d =>
      forall out, (forall k, k ∈ keys d -> k ∉ keys out) ->
        nest_from c (Ok out)
          (flat_map (fun kv => flatten_entry EmptyString sep kv.1 kv.2) d)
        = Ok (out ++ prune d)
  end.
Proof.
  induction v as [x|d IH] using cfg_value_ind'; intros Hwf; [done|].
  apply wf_value_mapping in Hwf as [Hnd Hok].
  induction d as [|[k v] d IHd]; intros out Hout.
  - simpl. by rewrite app_nil_r.
  - apply Forall_cons in IH as [IH1 IH2]. apply Forall_cons in Hok as [Hok1 Hok2].
    destruct Hok1 as (Hk & Hfree & Hwf). simpl in Hk, Hfree, Hwf, IH1.
    unfold keys in Hnd. simpl in Hnd. apply NoDup_cons in Hnd as [Hnotin Hnd].
    specialize (IHd IH2 Hnd Hok2).
    assert (Hkout : k ∉ keys out) by (apply Hout; left).
    assert (Hnext : forall e, keys e = [k] ->
              forall k', k' ∈ keys d -> k' ∉ keys (out ++ e)).
    { intros e He k' Hk'. unfold keys in *. rewrite map_app, He.
      intros [Hin|Hin]%elem_of_app.
      - by apply (Hout k'); [right|].
      - apply list_elem_of_singleton in Hin as ->. done. }
    cbn [flat_map fst snd]. rewrite nest_from_app, prune_cons.
    destruct v as [x|m].
    + cbn [flatten_entry prune_entry]. change (new_key EmptyString sep k) with k.
      rewrite nest_from_cons, nest_rec_leaf by done.
      change (nest_from c (Ok ?o) []) with (Ok o).
      rewrite dict_set_fresh by done.
      rewrite IHd by (by apply Hnext). by rewrite <- app_assoc.
    + specialize (IH1 Hwf). cbn beta iota in IH1.
      rewrite flatten_entry_mapping, flatten_dict_wf by done.
      rewrite prune_entry_mapping.
      specialize (IH1 [] (fun k' _ => not_elem_of_nil k')). rewrite app_nil_l in IH1.
      destruct (flat_map (fun kv => flatten_entry EmptyString sep kv.1 kv.2) m)
        as [|item items] eqn:Em.
      * injection IH1 as <-. change (nest_from c (Ok out) (map_key _ [])) with (Ok out).
        rewrite IHd; [done|]. intros k' Hk'. apply Hout. by right.
      * assert (Hne : prune m <> []).
        { apply (nest_from_not_nil _ _ _ IH1). by right. }
        rewrite nest_from_into_fresh by done. rewrite IH1. cbn [mbind result_bind].
        destruct (prune m) as [|e1 pm] eqn:Ep; [done|].
        rewrite IHd by (by apply Hnext). by rewrite <- app_assoc.
Qed.

End SeparatorChar.

Lemma nest_dict_from {V} (c : ascii) (flat : list (string * V)) :
  nest_dict flat (String c EmptyString) = nest_from c (Ok []) flat.
Proof. reflexivity. Qed.

Lemma leaves_app {V} (d1 d2 : list (string * cfg_value V)) :
  leaves (d1 ++ d2) = leaves d1 ++ leaves d2.
Proof. unfold leaves. apply flat_map_app. Qed.

Lemma leaves_prune_entry {V} (v : cfg_value V) k :
  leaves (prune_entry k v) = leaves_entry k v.
Proof.
  revert k. induction v as [x|m IH] using cfg_value_ind'; intros k; [done|].
  assert (Hm : leaves (prune m) = leaves m).
  { induction m as [|[k' v'] m IHm]; [done|].
    apply Forall_cons in IH as [IH1 IH2].
    rewrite prune_cons, leaves_app, IH1, IHm by done. done. }
  rewrite prune_entry_mapping. cbn [leaves_entry]. fold (leaves m). rewrite <- Hm.
  destruct (prune m) as [|e pm]; [done|].
  unfold leaves at 1. cbn [flat_map fst snd leaves_entry].
  by rewrite app_nil_r.
Qed.

Lemma leaves_prune {V} (d : list (string * cfg_value V)) :
  leaves (prune d) = leaves d.
Proof.
  induction d as [|[k v] d IH]; [done|].
  rewrite prune_cons, leaves_app, leaves_prune_entry, IH. done.
Qed.

Lemma prune_entry_id {V} (v : cfg_value V) k :
  no_empty_mapping_value v = true -> prune_entry k v = [(k, v)].
Proof.
  revert k. induction v as [x|m IH] using cfg_value_ind'; intros k Hne; [done|].
  cbn [no_empty_mapping_value] in Hne. apply andb_prop in Hne as [Hlen Hall].
  assert (Hm : prune m = m).
  { clear Hlen. induction m as [|[k' v'] m IHm]; [done|].
    apply Forall_cons in IH as [IH1 IH2]. cbn [forallb] in Hall.
    apply andb_prop in Hall as [H1 H2].
    rewrite prune_cons, IH1, IHm by done. done. }
  rewrite prune_entry_mapping, Hm. by destruct m.
Qed.

Lemma prune_id {V} (d : list (string * cfg_value V)) :
  no_empty_mapping d = true -> prune d = d.
Proof.
  induction d as [|[k v] d IH]; [done|]. cbn [no_empty_mapping forallb].
  intros [H1 H2]%andb_prop. rewrite prune_cons, prune_entry_id, IH by done. done.
Qed.

(** *** Round trip through the flat form *)

(** C2 (amended).  For every configuration whose keys are non-empty and free
    of the default separator ["_"] (and distinct within each mapping, as in
    any dictionary), [nest_dict(flatten_dict(cfg))] returns a configuration
    with the same leaves under the same key paths as [cfg]; it is [cfg]
    itself when no sub-mapping of [cfg] is empty.  This holds for any number
    of levels of nesting, in particular for two or more. *)
Theorem nest_flatten_roundtrip {V} (cfg : list (string * cfg_value V)) :
  wf_cfg "_" cfg = true ->
  exists t,
    nest_dict (flatten_dict cfg "" "_") "_" = Ok t
    /\ leaves t = leaves cfg
    /\ (no_empty_mapping cfg = true -> t = cfg).
Proof.
  intros Hwf. exists (prune cfg). split; [|split].
  - rewrite nest_dict_from, flatten_dict_wf by done.
    pose proof (nest_flatten_items "_" (Mapping cfg) Hwf) as H. cbn beta iota in H.
    apply (H [] (fun k _ => not_elem_of_nil k)).
  - apply leaves_prune.
  - apply prune_id.
Qed.

Lemma nest_flatten_roundtrip_witness :
  wf_cfg "_" cfg_dotted = true
  /\ 2 <= depth cfg_dotted
  /\ exists t,
       nest_dict (flatten_dict cfg_dotted "" "_") "_" = Ok t
       /\ leaves t = leaves cfg_dotted
       /\ (no_empty_mapping cfg_dotted = true -> t = cfg_dotted).
Proof.
  split; [reflexivity|]. split; [vm_compute; lia|].
  apply (nest_flatten_roundtrip cfg_dotted). reflexivity.
Defined.

(** C2 as stated fails: with the default separator a key that contains ["_"]
    collides with a nested path.  [cfg_clash] has three levels of nesting;
    its two leaves flatten to the same key, so one leaf value is lost. *)
Lemma nest_flatten_loses_leaf :
  2 <= depth cfg_clash
  /\ leaf_values cfg_clash = [1%Z; 2%Z]
  /\ flatten_dict cfg_clash "" "_" = [("nerf_train_num", 2%Z)]
  /\ nest_dict (flatten_dict cfg_clash "" "_") "_"
     = Ok [("nerf", Mapping [("train", Mapping [("num", Leaf 2%Z)])])]
  /\ ~ (exists t, nest_dict (flatten_dict cfg_clash "" "_") "_" = Ok t
                  /\ leaf_values t = leaf_values cfg_clash).
Proof.
  split; [vm_compute; lia|]. repeat split; try reflexivity.
  intros (t & Ht & Hl). vm_compute in Ht. injection Ht as <-.
  vm_compute in Hl. discriminate.
Qed.

(** A key with an underscore alone already changes the tree: the leaf
    [models.coarse_type] comes back as [models.coarse.type]. *)
Example nest_flatten_moves_leaf :
  nest_dict (flatten_dict [("models", Mapping [("coarse_type", Leaf 7%Z)])] "" "_") "_"
  = Ok [("models", Mapping [("coarse", Mapping [("type", Leaf 7%Z)])])].
Proof. reflexivity. Qed.

(** With the separator ["."] that [NeRFModel.__init__] passes, the same
    configuration survives the round trip. *)
Example nest_flatten_dot :
  nest_dict (flatten_dict [("models", Mapping [("coarse_type", Leaf 7%Z)])] "" ".") "."
  = Ok [("models", Mapping [("coarse_type", Leaf 7%Z)])].
Proof. reflexivity. Qed.

End Config.

(** ** src/model_nerf.py: ray batches, forward pass, training and validation *)

Module NeRFModel.

(** The tensor library.  Tensors hold floating point data; the operations
    the code calls on them are the methods of this interface. *)
Class TorchOps (Tensor Scalar : Type) := {
  (** [t.view(-1, 3)]; [None] when the shape is invalid for the input size *)
  view_rays : Tensor -> option Tensor;
  (** [t.shape[0]] *)
  shape0 : Tensor -> Z;
  (** [t[a:b]] *)
  tslice : Tensor -> Z -> Z -> Tensor;
  (** [t[..., :3]] *)
  channels3 : Tensor -> Tensor;
  (** [torch.cat(ts, 0)] of a non-empty list *)
  tcat : list Tensor -> Tensor;
  (** [t[..., None, :]] and [t[..., :, None]] *)
  rows_none : Tensor -> Tensor;
  cols_none : Tensor -> Tensor;
  tadd : Tensor -> Tensor -> Tensor;
  tmul : Tensor -> Tensor -> Tensor;
  expand_as : Tensor -> Tensor -> Tensor;
  (** [torch.nn.MSELoss()] *)
  mse_loss : Tensor -> Tensor -> Scalar;
  sadd : Scalar -> Scalar -> Scalar;
  sdiv : Scalar -> Scalar -> Scalar;
  szero : Scalar;
  (** [a / b] on integers, [b] non-zero *)
  sratio : Z -> Z -> Scalar;
  (** [nerf.mse2psnr] *)
  mse2psnr : Scalar -> Scalar
}.

(** [cfg.nerf.train] and [cfg.nerf.validation] *)
Record nerf_cfg : Type := {
  num_fine : Z;
  perturb : bool;
  chunksize : Z
}.

(** The fields of a [NeRFModel] instance the steps read. *)
Record model (Tensor Scalar : Type) : Type := {
  cfg_nerf_train : nerf_cfg;
  cfg_nerf_validation : nerf_cfg;
  cfg_dataset_near : Scalar;
  cfg_dataset_far : Scalar;
  (** [self.model_coarse.training] *)
  training : bool;
  model_coarse : Tensor -> Tensor -> Tensor;
  model_fine : option (Tensor -> Tensor -> Tensor);
  volume_renderer : Tensor -> Tensor -> Tensor -> Tensor * Tensor * Tensor * Tensor * Tensor;
  sample_interval : Scalar -> Scalar -> Tensor;
  sample_pdf : Tensor -> Tensor -> bool -> Tensor;
  (** [self.trainer.optimizers[0].param_groups[0]['lr']] *)
  lr : Scalar
}.
Arguments cfg_nerf_train {Tensor Scalar} _.
Arguments cfg_nerf_validation {Tensor Scalar} _.
Arguments cfg_dataset_near {Tensor Scalar} _.
Arguments cfg_dataset_far {Tensor Scalar} _.
Arguments training {Tensor Scalar} _.
Arguments model_coarse {Tensor Scalar} _ _ _.
Arguments model_fine {Tensor Scalar} _.
Arguments volume_renderer {Tensor Scalar} _ _ _ _.
Arguments sample_interval {Tensor Scalar} _ _ _.
Arguments sample_pdf {Tensor Scalar} _ _ _ _.
Arguments lr {Tensor Scalar} _.

(** The six values [forward] returns; the fine ones are [None] when no fine
    pass ran. *)
Record render_out (Tensor : Type) : Type := {
  rgb_coarse : Tensor;
  disp_coarse : Tensor;
  acc_coarse : Tensor;
  rgb_fine : option Tensor;
  disp_fine : option Tensor;
  acc_fine : option Tensor
}.
Arguments rgb_coarse {Tensor} _.
Arguments disp_coarse {Tensor} _.
Arguments acc_coarse {Tensor} _.
Arguments rgb_fine {Tensor} _.
Arguments disp_fine {Tensor} _.
Arguments acc_fine {Tensor} _.

(** The dictionary a step returns: the loss and the logged scalars. *)
Record step_output (Scalar : Type) : Type := {
  loss : Scalar;
  log : list (string * Scalar)
}.
Arguments loss {Scalar} _.
Arguments log {Scalar} _.

(** [range(0, n, step)] for [n >= 0] *)
Definition range_step (n step : Z) : result (list Z) :=
  if (step =? 0)%Z then Raise (ValueError "range() arg 3 must not be zero")
  else if (step <? 0)%Z then Ok []
  else Ok (map (fun i => (i * step)%Z) (range (ceil_div n step))).

Section Steps.
Context {Tensor Scalar : Type} `{TorchOps Tensor Scalar}.

Definition view (t : Tensor) : result Tensor :=
  match view_rays t with
  | Some t' => Ok t'
  | None => Raise (RuntimeError "shape '[-1, 3]' is invalid for input size")
  end.

Definition intervals_to_ray_points (point_intervals ray_direction ray_origin : Tensor)
  : Tensor :=
  tadd (rows_none ray_origin) (tmul (rows_none ray_direction) (cols_none point_intervals)).

(** [get_ray_batch]: the result is a Python tuple of three tensors. *)
Definition get_ray_batch (ray_batch : list Tensor) : result (list Tensor) :=
  '(ray_origins, ray_directions, ray_targets) ← unpack3 ray_batch;
  ray_origins ← view ray_origins;
  ray_directions ← view ray_directions;
  ray_targets ← view ray_targets;
  Ok [ray_origins; ray_directions; ray_targets].

Definition forward (self : model Tensor Scalar) (x : list Tensor)
  : result (render_out Tensor) :=
  '(ray_origins, ray_directions) ← unpack2 x;
  let nerf_cfg :=
    if training self then cfg_nerf_train self else cfg_nerf_validation self in
  let ray_intervals := sample_interval self (cfg_dataset_near self) (cfg_dataset_far self) in
  let ray_points := intervals_to_ray_points ray_intervals ray_directions ray_origins in
  let expanded_ray_directions := expand_as (rows_none ray_directions) ray_points in
  let coarse_radiance_field := model_coarse self ray_points expanded_ray_directions in
  let '(rgb_c, disp_c, acc_c, weights, depth_c) :=
    volume_renderer self coarse_radiance_field ray_intervals ray_directions in
  match (0 <? num_fine nerf_cfg)%Z, model_fine self with
  | true, Some fine =>
      let fine_ray_intervals := sample_pdf self ray_intervals weights (perturb nerf_cfg) in
      let ray_points := intervals_to_ray_points fine_ray_intervals ray_directions ray_origins in
      let expanded_ray_directions := expand_as (rows_none ray_directions) ray_points in
      let fine_radiance_field := fine ray_points expanded_ray_directions in
      let '(rgb_f, disp_f, acc_f, _, _) :=
        volume_renderer self fine_radiance_field fine_ray_intervals ray_directions in
      Ok {| rgb_coarse := rgb_c; disp_coarse := disp_c; acc_coarse := acc_c;
            rgb_fine := Some rgb_f; disp_fine := Some disp_f; acc_fine := Some acc_f |}
  | _, _ =>
      Ok {| rgb_coarse := rgb_c; disp_coarse := disp_c; acc_coarse := acc_c;
            rgb_fine := None; disp_fine := None; acc_fine := None |}
  end.

Definition training_step (self : model Tensor Scalar) (ray_batch : list Tensor)
  (batch_idx : Z) : result (step_output Scalar) :=
  rb ← get_ray_batch ray_batch;
  '(ray_origins, ray_directions, ray_targets) ← unpack3 rb;
  out ← forward self [ray_origins; ray_directions];
  let coarse_loss := mse_loss (rgb_coarse out) ray_targets in
  let log_vals psnr total :=
    [("train/loss", total); ("train/coarse_loss", coarse_loss);
     ("train/psnr", psnr); ("train/lr", lr self)] in
  match rgb_fine out with
  | Some rgb_f =>
      let fine_loss := mse_loss rgb_f ray_targets in
      let mse_loss_ := sadd coarse_loss fine_loss in
      let total := mse_loss_ in
      let psnr := mse2psnr fine_loss in
      Ok {| loss := total;
            log := log_vals psnr total
                   ++ [("train/fine_loss", fine_loss); ("train/mse_loss", mse_loss_)] |}
  | None =>
      let total := coarse_loss in
      let psnr := mse2psnr coarse_loss in
      Ok {| loss := total; log := log_vals psnr total |}
  end.

(** The state of the chunk loop of [validation_step]. *)
Record val_loop : Type := {
  vl_coarse_loss : Scalar;
  vl_fine_loss : Scalar;
  vl_all_rgb_coarse : list Tensor;
  vl_all_rgb_fine : list Tensor;
  (** the loop variable [rgb_fine]; unbound until the first iteration *)
  vl_rgb_fine : option (option Tensor)
}.

Definition validation_chunk (self : model Tensor Scalar)
  (ray_origins ray_directions bounds ray_targets : Tensor) (batchsize : Z)
  (st : val_loop) (i : Z) : result val_loop :=
  out ← forward self [tslice ray_origins i (i + batchsize);
                      tslice ray_directions i (i + batchsize);
                      bounds];
  let targets := channels3 (tslice ray_targets i (i + batchsize)) in
  let coarse := sadd (vl_coarse_loss st) (mse_loss (channels3 (rgb_coarse out)) targets) in
  match rgb_fine out with
  | Some rgb_f =>
      Ok {| vl_coarse_loss := coarse;
            vl_fine_loss := sadd (vl_fine_loss st) (mse_loss (channels3 rgb_f) targets);
            vl_all_rgb_coarse := vl_all_rgb_coarse st ++ [rgb_coarse out];
            vl_all_rgb_fine := vl_all_rgb_fine st ++ [rgb_f];
            vl_rgb_fine := Some (Some rgb_f) |}
  | None =>
      Ok {| vl_coarse_loss := coarse;
            vl_fine_loss := vl_fine_loss st;
            vl_all_rgb_coarse := vl_all_rgb_coarse st ++ [rgb_coarse out];
            vl_all_rgb_fine := vl_all_rgb_fine st;
            vl_rgb_fine := Some None |}
  end.

Definition cat (ts : list Tensor) : result Tensor :=
  match ts with
  | [] => Raise (RuntimeError "torch.cat(): expected a non-empty list of Tensors")
  | _ => Ok (tcat ts)
  end.

(** [validation_step]; the three [add_image] calls on the logger come after
    the losses and do not change the returned dictionary. *)
Definition validation_step (self : model Tensor Scalar) (image_ray_batch : list Tensor)
  (batch_idx : Z) : result (list (string * Scalar)) :=
  rb ← get_ray_batch image_ray_batch;
  '(ray_origins, ray_directions, bounds, ray_targets) ← unpack4 rb;
  let batchsize := chunksize (cfg_nerf_validation self) in
  batchcount ← (if (batchsize =? 0)%Z then Raise ZeroDivisionError
                else Ok (sratio (shape0 ray_origins) batchsize));
  starts ← range_step (shape0 ray_origins) batchsize;
  st ← fold_left
         (fun acc i =>
            st ← acc;
            validation_chunk self ray_origins ray_directions bounds ray_targets batchsize st i)
         starts
         (Ok {| vl_coarse_loss := szero; vl_fine_loss := szero;
                vl_all_rgb_coarse := []; vl_all_rgb_fine := [];
                vl_rgb_fine := None |});
  rgb_c ← cat (vl_all_rgb_coarse st);
  let coarse_loss := sdiv (vl_coarse_loss st) batchcount in
  match vl_rgb_fine st with
  | None => Raise (UnboundLocalError "rgb_fine")
  | Some (Some _) =>
      rgb_f ← cat (vl_all_rgb_fine st);
      let fine_loss := sdiv (vl_fine_loss st) batchcount in
      let total := sadd fine_loss coarse_loss in
      Ok [("val_loss", total); ("validation/loss", total);
          ("validation/coarse_loss", coarse_loss);
          ("validation/psnr", mse2psnr total);
          ("validation/fine_loss", fine_loss)]
  | Some None =>
      let total := coarse_loss in
      Ok [("val_loss", total); ("validation/loss", total);
          ("validation/coarse_loss", coarse_loss);
          ("validation/psnr", mse2psnr total)]
  end.

(** The configuration [forward] reads in the current mode. *)
Definition active_cfg (self : model Tensor Scalar) : nerf_cfg :=
  if training self then cfg_nerf_train self else cfg_nerf_validation self.

End Steps.

(** *** Tensors by their shapes

    An instance of the tensor interface that keeps the shape of every tensor
    and forgets its data; scalars carry no information. *)

Definition numel (shape : list Z) : Z := fold_right Z.mul 1%Z shape.

Fixpoint set_last (shape : list Z) (f : Z -> Z) : list Z :=
  match shape with
  | [] => []
  | [n] => [f n]
  | n :: rest => n :: set_last rest f
  end.

Fixpoint insert_before_last (shape : list Z) : list Z :=
  match shape with
  | [] => [1%Z]
  | [n] => [1%Z; n]
  | n :: rest => n :: insert_before_last rest
  end.

Fixpoint broadcast_rev (a b : list Z) : list Z :=
  match a, b with
  | [], _ => b
  | _, [] => a
  | x :: a', y :: b' => Z.max x y :: broadcast_rev a' b'
  end.

Definition broadcast (a b : list Z) : list Z := rev (broadcast_rev (rev a) (rev b)).

#[local] Instance shape_ops : TorchOps (list Z) unit := {|
  view_rays s :=
    if (numel s mod 3 =? 0)%Z then Some [(numel s / 3)%Z; 3%Z] else None;
  shape0 s := hd 0%Z s;
  tslice s a b :=
    match s with
    | [] => []
    | n :: rest => Z.max 0 (clamp_index n b - clamp_index n a) :: rest
    end;
  channels3 s := set_last s (Z.min 3);
  tcat ts := match ts with
             | [] => []
             | s :: _ => fold_right Z.add 0%Z (map (hd 0%Z) ts) :: tl s
             end;
  rows_none s := insert_before_last s;
  cols_none s := s ++ [1%Z];
  tadd := broadcast;
  tmul := broadcast;
  expand_as _ s := s;
  mse_loss _ _ := tt;
  sadd _ _ := tt;
  sdiv _ _ := tt;
  szero := tt;
  sratio _ _ := tt;
  mse2psnr _ := tt
|}.

(** A coarse and fine network pair on 64 + 64 samples per ray. *)
Definition shape_model : model (list Z) unit := {|
  cfg_nerf_train := {| num_fine := 64; perturb := true; chunksize := 2048 |};
  cfg_nerf_validation := {| num_fine := 64; perturb := false; chunksize := 2048 |};
  cfg_dataset_near := tt;
  cfg_dataset_far := tt;
  training := true;
  model_coarse pts _ := set_last pts (fun _ => 4%Z);
  model_fine := Some (fun pts _ => set_last pts (fun _ => 4%Z));
  volume_renderer field intervals dirs :=
    (dirs, removelast dirs, removelast dirs, removelast field, removelast dirs);
  sample_interval _ _ := [64%Z];
  sample_pdf intervals _ _ := set_last intervals (fun n => (n + 64)%Z);
  lr := tt
|}.

(** *** The forward pass and the training step *)

Section StepFacts.
Context {Tensor Scalar : Type} `{TorchOps Tensor Scalar}.

Lemma forward_pair (self : model Tensor Scalar) (o d : Tensor) :
  exists r, forward self [o; d] = Ok r
    /\ (is_Some (rgb_fine r)
        <-> (0 < num_fine (active_cfg self))%Z /\ is_Some (model_fine self)).
Proof.
  unfold forward, active_cfg. cbn [unpack2 mbind result_bind].
  destruct (volume_renderer self _ _ _) as [[[[rc dc] ac] w] dp].
  destruct (Z.ltb_spec 0 (num_fine (if training self then cfg_nerf_train self
                                    else cfg_nerf_validation self))) as [Hlt|Hge].
  - destruct (model_fine self) as [fine|].
    + destruct (volume_renderer self _ _ _) as [[[[rf df] af] w'] dp'].
      eexists. split; [done|]. cbn. split; [by eauto|by eauto].
    + eexists. split; [done|]. cbn. split.
      * by intros [? ?].
      * by intros [_ [? ?]].
  - eexists. split; [done|]. cbn. split.
    + by intros [? ?].
    + intros [Hlt _]. lia.
Qed.

(** The unpacking of [forward] accepts pairs only. *)
Lemma forward_triple (self : model Tensor Scalar) (o d b : Tensor) :
  forward self [o; d; b] = Raise (ValueError "too many values to unpack (expected 2)").
Proof. reflexivity. Qed.

Lemma get_ray_batch_arity (batch : list Tensor) :
  length batch <> 3 ->
  exists e, get_ray_batch batch = Raise e /\ is_arity_error e.
Proof.
  intros Hlen. unfold get_ray_batch.
  destruct batch as [|a [|b [|c [|e batch]]]]; cbn [unpack3 mbind result_bind];
    try done; (eexists; split; [reflexivity|]; eexists 3, _; split; [|reflexivity]);
    cbn [length]; lia.
Qed.

Lemma get_ray_batch_ok (batch rb : list Tensor) :
  get_ray_batch batch = Ok rb -> length rb = 3.
Proof.
  unfold get_ray_batch.
  destruct batch as [|a [|b [|c [|e batch]]]]; cbn; try done.
  unfold view. destruct (view_rays a); [|done]. destruct (view_rays b); [|done].
  destruct (view_rays c); [|done]. cbn. by intros [= <-].
Qed.

(** C8.  On a batch that [get_ray_batch] turns into origins, directions and
    targets, [training_step] returns; its coarse loss is the MSE of the coarse
    rendering against the targets; a fine rendering exists exactly when the
    active configuration asks for fine samples and a fine model is present;
    with a fine rendering the total loss is the plain sum of the coarse and
    fine losses and the PSNR is [mse2psnr] of the fine loss; without one the
    total loss is the coarse loss and the PSNR is [mse2psnr] of it. *)
Theorem training_step_losses (self : model Tensor Scalar) (batch : list Tensor)
  (batch_idx : Z) (o d t : Tensor) :
  get_ray_batch batch = Ok [o; d; t] ->
  exists r out,
    forward self [o; d] = Ok r
    /\ training_step self batch batch_idx = Ok out
    /\ (is_Some (rgb_fine r)
        <-> (0 < num_fine (active_cfg self))%Z /\ is_Some (model_fine self))
    /\ Config.dict_get (log out) "train/coarse_loss" = Some (mse_loss (rgb_coarse r) t)
    /\ Config.dict_get (log out) "train/loss" = Some (loss out)
    /\ match rgb_fine r with
       | Some rgb_f =>
           loss out = sadd (mse_loss (rgb_coarse r) t) (mse_loss rgb_f t)
           /\ Config.dict_get (log out) "train/fine_loss" = Some (mse_loss rgb_f t)
           /\ Config.dict_get (log out) "train/psnr" = Some (mse2psnr (mse_loss rgb_f t))
       | None =>
           loss out = mse_loss (rgb_coarse r) t
           /\ Config.dict_get (log out) "train/fine_loss" = None
           /\ Config.dict_get (log out) "train/psnr"
              = Some (mse2psnr (mse_loss (rgb_coarse r) t))
       end.
Proof.
  intros Hrb. destruct (forward_pair self o d) as (r & Hfw & Hfine).
  unfold training_step. rewrite Hrb. cbn [unpack3 mbind result_bind].
  rewrite Hfw. cbn [mbind result_bind].
  destruct (rgb_fine r) as [rgb_f|] eqn:Hr.
  - eexists r, _. rewrite Hr.
    split; [done|]. split; [reflexivity|]. split; [exact Hfine|].
    cbn. done.
  - eexists r, _. rewrite Hr.
    split; [done|]. split; [reflexivity|]. split; [exact Hfine|].
    cbn. done.
Qed.

Lemma get_ray_batch_views (a b c a' b' c' : Tensor) :
  view_rays a = Some a' -> view_rays b = Some b' -> view_rays c = Some c' ->
  get_ray_batch [a; b; c] = Ok [a'; b'; c'].
Proof.
  intros Ha Hb Hc. unfold get_ray_batch, view. cbn [unpack3 mbind result_bind].
  rewrite Ha. cbn [mbind result_bind]. rewrite Hb. cbn [mbind result_bind].
  rewrite Hc. reflexivity.
Qed.

(** C3 (amended).  For every input batch and every model [validation_step]
    is [get_ray_batch] followed by the failing unpacking of its 3-tuple into
    four names: it raises before any loss is computed and never returns.  The
    exception is a tuple-arity error when the batch is not a 3-tuple (raised
    inside [get_ray_batch]) and when [get_ray_batch] returns, which it does on
    three tensors that reshape to rows of three; otherwise it is the error of
    the failed reshape.  The inner call of [forward] on a 3-tuple would raise
    a tuple-arity error as well. *)
Theorem validation_step_raises (batch : list Tensor) :
  (forall (self : model Tensor Scalar) (batch_idx : Z),
      validation_step self batch batch_idx
      = (_ ← get_ray_batch batch;
         Raise (ValueError "not enough values to unpack (expected 4, got 3)")))
  /\ (forall (self : model Tensor Scalar) (batch_idx : Z),
        is_ok (validation_step self batch batch_idx) = false)
  /\ (forall (self : model Tensor Scalar) (batch_idx : Z) (e : exn),
        validation_step self batch batch_idx = Raise e ->
        length batch <> 3 \/ is_ok (get_ray_batch batch) = true ->
        is_arity_error e)
  /\ (forall a b c a' b' c' : Tensor,
        batch = [a; b; c] ->
        view_rays a = Some a' -> view_rays b = Some b' -> view_rays c = Some c' ->
        get_ray_batch batch = Ok [a'; b'; c'])
  /\ (forall (self : model Tensor Scalar) (o d b : Tensor),
        exists e', forward self [o; d; b] = Raise e' /\ is_arity_error e').
Proof.
  assert (Hstep : forall (self : model Tensor Scalar) (batch_idx : Z),
    validation_step self batch batch_idx
    = (_ ← get_ray_batch batch;
       Raise (ValueError "not enough values to unpack (expected 4, got 3)"))).
  { intros self idx. unfold validation_step.
    destruct (get_ray_batch batch) as [rb|e] eqn:Hrb; [|done].
    pose proof (get_ray_batch_ok _ _ Hrb) as Hlen.
    by destruct rb as [|a [|b [|c [|x rb]]]]. }
  split; [done|]. split; [|split; [|split]].
  - intros self idx. rewrite Hstep. by destruct (get_ray_batch batch).
  - intros self idx e. rewrite Hstep. intros He [Hlen|Hok].
    + destruct (get_ray_batch_arity batch Hlen) as (e' & He' & Harity).
      rewrite He' in He. by injection He as <-.
    + destruct (get_ray_batch batch); [|done]. injection He as <-. by exists 4, 3.
  - intros a b c a' b' c' ->. apply get_ray_batch_views.
  - intros self o d b'. eexists. split; [apply forward_triple|by exists 2, 3].
Qed.

End StepFacts.

Lemma training_step_losses_witness :
  get_ray_batch [[1024; 3]; [1024; 3]; [1024; 3]]%Z
    = Ok [[1024; 3]; [1024; 3]; [1024; 3]]%Z
  /\ exists r out,
    forward shape_model [[1024; 3]; [1024; 3]]%Z = Ok r
    /\ training_step shape_model [[1024; 3]; [1024; 3]; [1024; 3]]%Z 0 = Ok out
    /\ (is_Some (rgb_fine r)
        <-> (0 < num_fine (active_cfg shape_model))%Z /\ is_Some (model_fine shape_model))
    /\ Config.dict_get (log out) "train/coarse_loss"
       = Some (mse_loss (rgb_coarse r) [1024; 3]%Z)
    /\ Config.dict_get (log out) "train/loss" = Some (loss out)
    /\ match rgb_fine r with
       | Some rgb_f =>
           loss out = sadd (mse_loss (rgb_coarse r) [1024; 3]%Z) (mse_loss rgb_f [1024; 3]%Z)
           /\ Config.dict_get (log out) "train/fine_loss" = Some (mse_loss rgb_f [1024; 3]%Z)
           /\ Config.dict_get (log out) "train/psnr"
              = Some (mse2psnr (mse_loss rgb_f [1024; 3]%Z))
       | None =>
           loss out = mse_loss (rgb_coarse r) [1024; 3]%Z
           /\ Config.dict_get (log out) "train/fine_loss" = None
           /\ Config.dict_get (log out) "train/psnr"
              = Some (mse2psnr (mse_loss (rgb_coarse r) [1024; 3]%Z))
       end.
Proof.
  split; [reflexivity|].
  apply (training_step_losses shape_model [[1024; 3]; [1024; 3]; [1024; 3]]%Z 0
           [1024; 3]%Z [1024; 3]%Z [1024; 3]%Z).
  reflexivity.
Defined.

(** C3 as stated fails on a batch of three tensors one of which does not
    reshape to rows of three: the rays of a 2 x 2 image with RGBA targets hold
    16 target values, and [get_ray_batch] raises the reshape error, which is
    no tuple-arity error. *)
Lemma validation_step_reshape_error :
  validation_step shape_model [[2; 2; 3]; [2; 2; 3]; [2; 2; 4]]%Z 0
    = Raise (RuntimeError "shape '[-1, 3]' is invalid for input size")
  /\ ~ is_arity_error (RuntimeError "shape '[-1, 3]' is invalid for input size").
Proof.
  split; [reflexivity|]. intros (expected & got & _ & Hmsg).
  unfold arity_error in Hmsg. destruct (expected <? got); discriminate.
Qed.

Example validation_step_rgb_targets :
  validation_step shape_model [[2; 2; 3]; [2; 2; 3]; [2; 2; 3]]%Z 0
  = Raise (ValueError "not enough values to unpack (expected 4, got 3)").
Proof. reflexivity. Qed.

Example validation_step_four_tuple :
  validation_step shape_model [[2; 3]; [2; 3]; [2; 2]; [2; 4]]%Z 0
  = Raise (ValueError "too many values to unpack (expected 3)").
Proof. reflexivity. Qed.

End NeRFModel.

(** ** src/data/datasets.py *)

Module Datasets.

(** *** get_rays *)

Section GetRays.
(** The tensor kernels of ray generation: the grid of camera-space
    directions, their rotation by a pose, the broadcast of the pose's
    position and [torch.stack] of a non-empty list. *)
Context {Tensor Pose Camera Scalar : Type}.
Context (dummy_rays_simple_radial : Z -> Z -> Camera -> Scalar -> Tensor).
Context (rotate_directions : Tensor -> Pose -> Tensor).
Context (expand_origin : Pose -> Tensor -> Tensor).
Context (tstack : list Tensor -> Tensor).

Definition stack (ts : list Tensor) : result Tensor :=
  match ts with
  | [] => Raise (RuntimeError "stack expects a non-empty TensorList")
  | _ => Ok (tstack ts)
  end.

Definition get_rays (H W : Z) (camera : Camera) (poses : list Pose)
  (camera_model : string) (resolution : Scalar) : result (Tensor * Tensor) :=
  dummies ← (if String.eqb camera_model "SIMPLE_RADIAL"
             then Ok (dummy_rays_simple_radial H W camera resolution)
             else Raise (NotImplementedError
                           ("Camera model " +:+ camera_model +:+ " not implemented!")));
  let all_ray_directions := map (fun pose => rotate_directions dummies pose) poses in
  let all_ray_origins :=
    map (fun pose => expand_origin pose (rotate_directions dummies pose)) poses in
  all_ray_origins ← stack all_ray_origins;
  all_ray_directions ← stack all_ray_directions;
  Ok (all_ray_directions, all_ray_origins).

End GetRays.

(** *** CachingDataset *)

Inductive DatasetType : Type := TRAIN | TEST | VALIDATION.

Definition DatasetType_value (t : DatasetType) : string :=
  match t with
  | TRAIN => "train"
  | TEST => "test"
  | VALIDATION => "val"
  end.

(** The [type] argument: a member of the enumeration or any other value
    (a plain string, say), which the assertion rejects. *)
Inductive type_arg : Type :=
| Member (t : DatasetType)
| Other (v : string).

(** [cfg.dataset.caching] *)
Record caching_cfg : Type := {
  use_caching : bool;
  cache_dir : string;
  override_caching : bool
}.

(** What [__init__] does to the world, in order. *)
Inductive event : Type :=
| Print (msg : string)
| Makedirs (path : string)
| CacheDataset
| LoadDataset
| Glob (pattern : string)
| TorchLoad (path : string).

(** The file system (the set of paths that exist) and the log of events. *)
Record world : Type := {
  fs : gset string;
  trace : list event
}.

(** Computations that read and change the world and may raise. *)
Definition M (A : Type) : Type := world -> result A * world.

#[global] Instance M_ret : MRet M := fun A a w => (Ok a, w).
#[global] Instance M_bind : MBind M :=
  fun A B f m w =>
    match m w with
    | (Ok a, w') => f a w'
    | (Raise e, w') => (Raise e, w')
    end.

Definition raise {A} (e : exn) : M A := fun w => (Raise e, w).

Definition emit (ev : event) : M unit :=
  fun w => (Ok tt, {| fs := fs w; trace := trace w ++ [ev] |}).

(** [os.path.exists(p)] *)
Definition path_exists (p : string) : M bool :=
  fun w => (Ok (bool_decide (p ∈ fs w)), w).

(** The directories [os.makedirs(p)] creates: [p] and each of its parents. *)
Fixpoint parents_from (pre rest : string) : list string :=
  match rest with
  | EmptyString => []
  | String c rest' =>
      (if Ascii.eqb c "/" then (if String.eqb pre "" then [] else [pre]) else [])
      ++ parents_from (pre +:+ String c EmptyString) rest'
  end.

(** [os.makedirs(p, exist_ok=True)] *)
Definition makedirs (p : string) : M unit :=
  fun w => (Ok tt, {| fs := fs w ∪ list_to_set (parents_from "" p) ∪ {[ p ]};
                      trace := trace w ++ [Makedirs p] |}).

Section CachingDataset.
(** The methods a subclass overrides act on the file system; [glob_data]
    lists the files that match a pattern and [torch_load_hwf] reads the
    ['hwf'] entry of a cache file. *)
Context {HWF : Type}.
Context (cache_dataset_impl : gset string -> result (gset string)).
Context (load_dataset_impl : gset string -> result HWF).
Context (glob_data : gset string -> string -> list string).
Context (torch_load_hwf : gset string -> string -> result HWF).

Definition cache_dataset : M unit :=
  fun w =>
    let w1 := {| fs := fs w; trace := trace w ++ [CacheDataset] |} in
    match cache_dataset_impl (fs w) with
    | Ok fs' => (Ok tt, {| fs := fs'; trace := trace w1 |})
    | Raise e => (Raise e, w1)
    end.

Definition load_dataset : M HWF :=
  fun w =>
    let w1 := {| fs := fs w; trace := trace w ++ [LoadDataset] |} in
    (load_dataset_impl (fs w), w1).

Definition glob (pattern : string) : M (list string) :=
  fun w => (Ok (glob_data (fs w) pattern),
            {| fs := fs w; trace := trace w ++ [Glob pattern] |}).

Definition torch_load (p : string) : M HWF :=
  fun w => (torch_load_hwf (fs w) p,
            {| fs := fs w; trace := trace w ++ [TorchLoad p] |}).

(** The fields [__init__] sets that later methods read. *)
Record caching_dataset : Type := {
  cd_path : string;
  cd_paths : list string;
  cd_hwf : HWF
}.

Definition __init__ (cfg : caching_cfg) (type : type_arg) : M caching_dataset :=
  ty ← match type with
       | Member t => mret t
       | Other v => raise (AssertionError ("Invalid dataset type " +:+ v))
       end;
  let path := path_join (cache_dir cfg) (DatasetType_value ty) in
  if use_caching cfg then
    cache_dir_exists ← path_exists (cache_dir cfg);
    _ ← (if negb cache_dir_exists then
           _ ← emit (Print ("The path $" +:+ cache_dir cfg
                            +:+ " does not exist, creating one..."));
           makedirs path
         else mret tt);
    let message :=
      if override_caching cfg && cache_dir_exists then "overriding" else "creating" in
    _ ← emit (Print ("Caching the dataset to " +:+ path +:+ " by " +:+ message +:+ "..."));
    _ ← (if override_caching cfg || negb cache_dir_exists then cache_dataset
         else mret tt);
    paths ← glob (path_join (path_join (cache_dir cfg) (DatasetType_value ty)) "*.data");
    first ← match paths with
            | p :: _ => mret p
            | [] => raise (IndexError "list index out of range")
            end;
    hwf ← torch_load first;
    _ ← emit (Print "Using cached dataset...");
    mret {| cd_path := path; cd_paths := paths; cd_hwf := hwf |}
  else
    hwf ← load_dataset;
    _ ← emit (Print "Load whole dataset into the memory...");
    mret {| cd_path := path; cd_paths := []; cd_hwf := hwf |}.

(** How often [cache_dataset] was invoked, and whether a directory was
    created, according to a trace. *)
Definition cache_dataset_calls (tr : list event) : nat :=
  length (List.filter (fun ev => match ev with CacheDataset => true | _ => false end) tr).

Definition created_directory (tr : list event) : bool :=
  existsb (fun ev => match ev with Makedirs _ => true | _ => false end) tr.

(** The events of one construction, started on the file system [fs0]. *)
Definition init_events (cfg : caching_cfg) (type : type_arg) (fs0 : gset string)
  : list event :=
  trace (__init__ cfg type {| fs := fs0; trace := [] |}).2.

End CachingDataset.

(** A subclass whose caching pass writes one file for the split, with the
    matching [glob], for running [__init__] on concrete file systems. *)
Definition demo_cache_dataset (files : gset string) : result (gset string) :=
  Ok (files ∪ {[ "cache/train/0000.data" ]}).

Definition demo_glob (files : gset string) (pattern : string) : list string :=
  if bool_decide ("cache/train/0000.data" ∈ files)
  then ["cache/train/0000.data"] else [].

Definition demo_hwf (files : gset string) (file : string) : result (Z * Z * Z) :=
  Ok (800, 800, 1111)%Z.

Definition demo_events (override : bool) (files : gset string) : list event :=
  init_events demo_cache_dataset (fun _ => Ok (800, 800, 1111)%Z) demo_glob demo_hwf
    {| use_caching := true; cache_dir := "cache"; override_caching := override |}
    (Member TRAIN) files.

(** *** ScanNetDataset *)

Record scannet (Frame : Type) : Type := {
  sn_frames : list Frame;
  sn_num_random_rays : option Z;
  sn_skip : option Z;
  sn_skip_every : option Z;
  sn_stop : Z;
  sn_data_len : Z
}.
Arguments sn_frames {Frame} _.
Arguments sn_num_random_rays {Frame} _.
Arguments sn_skip {Frame} _.
Arguments sn_skip_every {Frame} _.
Arguments sn_stop {Frame} _.
Arguments sn_data_len {Frame} _.

Definition get_or (x : option Z) (d : Z) : Z :=
  match x with Some v => v | None => d end.

(** [ScanNetDataset.__init__]: [self.skip] and [self.skip_every] are stored
    first; the assignment [skip_every = None] in the [if skip:] branch
    rebinds the local name only. *)
Definition scannet_init {Frame} (frames : list Frame) (num_random_rays : option Z)
  (start stop : Z) (skip skip_every : option Z) : scannet Frame :=
  let self_stop := if (stop =? -1)%Z then Z.of_nat (length frames) else stop in
  let data_len :=
    if truthy skip then ceil_div self_stop (get_or skip 1)
    else if truthy skip_every then (self_stop - ceil_div self_stop (get_or skip_every 1))%Z
    else Z.of_nat (length frames) in
  {| sn_frames := frames;
     sn_num_random_rays := num_random_rays;
     sn_skip := skip;
     sn_skip_every := skip_every;
     sn_stop := self_stop;
     sn_data_len := data_len |}.

Definition scannet_len {Frame} (self : scannet Frame) : Z := sn_data_len self.

(** The index of the frame [__getitem__(item)] reads. *)
Definition scannet_frame_index {Frame} (self : scannet Frame) (item : Z) : Z :=
  let item := if truthy (sn_skip self) then (item * get_or (sn_skip self) 1)%Z else item in
  let item :=
    if truthy (sn_skip_every self)
    then (item + ((item / get_or (sn_skip_every self) 1 - 1) + 1))%Z
    else item in
  item.

(** [ScanNetDataset.__getitem__] up to the frame it decodes:
    [data_frame = self.data.frames[item]]. *)
Definition scannet_getitem {Frame} (self : scannet Frame) (item : Z) : result Frame :=
  list_get (sn_frames self) (scannet_frame_index self item).

(** *** ColmapDataset and LLFFColmapDataset

    Both keep the rays in tensors indexed along their first axis: single
    rays in pooled mode, whole images otherwise. *)

Record ray_dataset (Ray Bounds Target : Type) : Type := {
  rd_num_random_rays : Z;
  rd_ray_targets : list Target;
  rd_all_ray_origins : list Ray;
  rd_all_ray_directions : list Ray;
  rd_ray_bounds : list Bounds
}.
Arguments rd_num_random_rays {Ray Bounds Target} _.
Arguments rd_ray_targets {Ray Bounds Target} _.
Arguments rd_all_ray_origins {Ray Bounds Target} _.
Arguments rd_all_ray_directions {Ray Bounds Target} _.
Arguments rd_ray_bounds {Ray Bounds Target} _.

Section RayDatasets.
Context {Ray Bounds Target : Type}.

(** [__len__], the same in both classes *)
Definition ray_dataset_len (self : ray_dataset Ray Bounds Target) : result Z :=
  let total := Z.of_nat (length (rd_ray_targets self)) in
  if (0 <=? rd_num_random_rays self)%Z
  then int_truediv total (rd_num_random_rays self)
  else Ok total.

Definition item_indices (self : ray_dataset Ray Bounds Target) (idx : Z) : Z * Z :=
  if (0 <=? rd_num_random_rays self)%Z
  then let start := (idx * rd_num_random_rays self)%Z in
       (start, (start + rd_num_random_rays self)%Z)
  else (idx, (idx + 1)%Z).

(** [ColmapDataset.__getitem__]: the bounds are returned whole. *)
Definition colmap_getitem (self : ray_dataset Ray Bounds Target) (idx : Z)
  : result (list Ray * list Ray * list Bounds * list Target) :=
  n ← ray_dataset_len self;
  if (n <=? idx)%Z then Raise (IndexError "Not a valid batch number!")
  else
    let '(a, b) := item_indices self idx in
    Ok (slice (rd_all_ray_origins self) a b,
        slice (rd_all_ray_directions self) a b,
        rd_ray_bounds self,
        slice (rd_ray_targets self) a b).

(** [LLFFColmapDataset.__getitem__]: the bounds are sliced like the rays. *)
Definition llff_getitem (self : ray_dataset Ray Bounds Target) (idx : Z)
  : result (list Ray * list Ray * list Bounds * list Target) :=
  n ← ray_dataset_len self;
  if (n <=? idx)%Z then Raise (IndexError "Not a valid batch number!")
  else
    let '(a, b) := item_indices self idx in
    Ok (slice (rd_all_ray_origins self) a b,
        slice (rd_all_ray_directions self) a b,
        slice (rd_ray_bounds self) a b,
        slice (rd_ray_targets self) a b).

End RayDatasets.

(** A pool of five rays, numbered, with no rays per item. *)
Definition pool_of_five : ray_dataset Z Z Z := {|
  rd_num_random_rays := 0;
  rd_ray_targets := [0; 1; 2; 3; 4]%Z;
  rd_all_ray_origins := [0; 1; 2; 3; 4]%Z;
  rd_all_ray_directions := [0; 1; 2; 3; 4]%Z;
  rd_ray_bounds := [0; 1; 2; 3; 4]%Z
|}.

(** The same pool with two rays per item. *)
Definition pool_by_two : ray_dataset Z Z Z := {|
  rd_num_random_rays := 2;
  rd_ray_targets := [0; 1; 2; 3; 4]%Z;
  rd_all_ray_origins := [0; 1; 2; 3; 4]%Z;
  rd_all_ray_directions := [0; 1; 2; 3; 4]%Z;
  rd_ray_bounds := [0; 1; 2; 3; 4]%Z
|}.

(** A capture of ten frames, numbered. *)
Definition ten_frames : list nat := seq 0 10.

(** *** Unsupported camera models *)

Section GetRaysFacts.
Context {Tensor Pose Camera Scalar : Type}.
Context (dummy_rays_simple_radial : Z -> Z -> Camera -> Scalar -> Tensor).
Context (rotate_directions : Tensor -> Pose -> Tensor).
Context (expand_origin : Pose -> Tensor -> Tensor).
Context (tstack : list Tensor -> Tensor).

(** C5.  [get_rays] raises [NotImplementedError] exactly when the camera
    model is not ["SIMPLE_RADIAL"], and the message then names the model. *)
Theorem get_rays_not_implemented (H W : Z) (camera : Camera) (poses : list Pose)
  (camera_model : string) (resolution : Scalar) (msg : string) :
  get_rays dummy_rays_simple_radial rotate_directions expand_origin tstack
    H W camera poses camera_model resolution = Raise (NotImplementedError msg)
  <-> camera_model <> "SIMPLE_RADIAL"
      /\ msg = "Camera model " +:+ camera_model +:+ " not implemented!".
Proof.
  unfold get_rays.
  destruct (String.eqb_spec camera_model "SIMPLE_RADIAL") as [->|Hne].
  - cbn [mbind result_bind]. split; [|by intros [? _]].
    destruct poses as [|pose poses]; cbn; discriminate.
  - cbn [mbind result_bind]. split.
    + by intros [= <-].
    + by intros [_ ->].
Qed.

Lemma get_rays_simple_radial (H W : Z) (camera : Camera) (pose : Pose)
  (poses : list Pose) (resolution : Scalar) :
  is_ok (get_rays dummy_rays_simple_radial rotate_directions expand_origin tstack
           H W camera (pose :: poses) "SIMPLE_RADIAL" resolution) = true.
Proof. reflexivity. Qed.

End GetRaysFacts.

(** *** When the caching pass runs *)

Section CachingFacts.
Context {HWF : Type}.
Context (cache_dataset_impl : gset string -> result (gset string)).
Context (load_dataset_impl : gset string -> result HWF).
Context (glob_data : gset string -> string -> list string).
Context (torch_load_hwf : gset string -> string -> result HWF).

#[local] Abbreviation init_events :=
  (init_events cache_dataset_impl load_dataset_impl glob_data torch_load_hwf).

Lemma init_events_caching (cfg : caching_cfg) (t : DatasetType) (fs0 : gset string) :
  use_caching cfg = true ->
  cache_dataset_calls (init_events cfg (Member t) fs0)
  = (if override_caching cfg || negb (bool_decide (cache_dir cfg ∈ fs0)) then 1 else 0)
  /\ created_directory (init_events cfg (Member t) fs0)
     = negb (bool_decide (cache_dir cfg ∈ fs0)).
Proof.
  intros Huse. unfold init_events, __init__. rewrite Huse.
  unfold mbind, M_bind, mret, M_ret, path_exists, emit, makedirs, cache_dataset,
    glob, torch_load, raise.
  cbn [fs trace fst snd].
  destruct (bool_decide (cache_dir cfg ∈ fs0)), (override_caching cfg);
    cbn [negb orb andb fs trace];
    repeat match goal with
      | |- context [cache_dataset_impl ?x] => destruct (cache_dataset_impl x)
      | |- context [glob_data ?x ?y] => destruct (glob_data x y)
      | |- context [torch_load_hwf ?x ?y] => destruct (torch_load_hwf x y)
      end;
    cbn [fs trace fst snd]; split; reflexivity.
Qed.

(** C4.  When [use_caching] is enabled, [CachingDataset.__init__] invokes
    [cache_dataset()] (once) if and only if [override_caching] is set or the
    cache directory did not exist before the construction; when the directory
    was just created the caching pass always runs.  Without [use_caching] it
    never runs. *)
Theorem caching_init_cache_dataset (cfg : caching_cfg) (t : DatasetType)
  (fs0 : gset string) :
  (use_caching cfg = true ->
     (cache_dataset_calls (init_events cfg (Member t) fs0) = 1
      <-> override_caching cfg = true \/ cache_dir cfg ∉ fs0)
     /\ (cache_dataset_calls (init_events cfg (Member t) fs0) = 0
         <-> ~ (override_caching cfg = true \/ cache_dir cfg ∉ fs0))
     /\ (created_directory (init_events cfg (Member t) fs0) = true
         <-> cache_dir cfg ∉ fs0)
     /\ (created_directory (init_events cfg (Member t) fs0) = true ->
         cache_dataset_calls (init_events cfg (Member t) fs0) = 1))
  /\ (use_caching cfg = false ->
      cache_dataset_calls (init_events cfg (Member t) fs0) = 0).
Proof.
  split.
  - intros Huse. destruct (init_events_caching cfg t fs0 Huse) as [-> ->].
    destruct (override_caching cfg), (decide (cache_dir cfg ∈ fs0)) as [Hin|Hout];
      [rewrite (bool_decide_eq_true_2 _ Hin) | rewrite (bool_decide_eq_false_2 _ Hout)
      |rewrite (bool_decide_eq_true_2 _ Hin) | rewrite (bool_decide_eq_false_2 _ Hout)];
      cbn [orb negb]; intuition (discriminate || auto).
  - intros Huse. unfold init_events, __init__. rewrite Huse.
    unfold mbind, M_bind, mret, M_ret, load_dataset, emit.
    cbn [fs trace fst snd].
    destruct (load_dataset_impl fs0); reflexivity.
Qed.

End CachingFacts.

(** A first run creates the directory and caches; a second run on the
    populated cache reuses it; with the override flag it caches again. *)
Example caching_first_run :
  demo_events false ∅
  = [Print "The path $cache does not exist, creating one...";
     Makedirs "cache/train";
     Print "Caching the dataset to cache/train by creating...";
     CacheDataset; Glob "cache/train/*.data";
     TorchLoad "cache/train/0000.data"; Print "Using cached dataset..."].
Proof. vm_compute. reflexivity. Qed.

Example caching_second_run :
  demo_events false {[ "cache"; "cache/train"; "cache/train/0000.data" ]}
  = [Print "Caching the dataset to cache/train by creating...";
     Glob "cache/train/*.data";
     TorchLoad "cache/train/0000.data"; Print "Using cached dataset..."]
  /\ demo_events true {[ "cache"; "cache/train"; "cache/train/0000.data" ]}
     = [Print "Caching the dataset to cache/train by overriding...";
        CacheDataset; Glob "cache/train/*.data";
        TorchLoad "cache/train/0000.data"; Print "Using cached dataset..."].
Proof. split; vm_compute; reflexivity. Qed.

(** *** Subsampling a ScanNet capture *)

(** [ceil_div a b] is the ceiling of [a / b] for a positive [b]. *)
Lemma ceil_div_spec (a b : Z) :
  (0 < b)%Z -> ((ceil_div a b - 1) * b < a <= ceil_div a b * b)%Z.
Proof.
  intros Hb. unfold ceil_div.
  pose proof (Z.div_mod (- a) b ltac:(lia)) as Hdm.
  pose proof (Z.mod_pos_bound (- a) b Hb) as Hmod.
  nia.
Qed.

Section ScanNetFacts.
Context {Frame : Type}.

Lemma scannet_len_skip (frames : list Frame) nrr start stop (s : Z) se :
  s <> 0%Z ->
  scannet_len (scannet_init frames nrr start stop (Some s) se)
  = ceil_div (sn_stop (scannet_init frames nrr start stop (Some s) se)) s.
Proof.
  intros Hs. unfold scannet_len, scannet_init. cbn.
  by destruct (Z.eqb_spec s 0).
Qed.

Lemma scannet_len_skip_every (frames : list Frame) nrr start stop (e : Z) :
  e <> 0%Z ->
  scannet_len (scannet_init frames nrr start stop None (Some e))
  = (sn_stop (scannet_init frames nrr start stop None (Some e))
     - ceil_div (sn_stop (scannet_init frames nrr start stop None (Some e))) e)%Z.
Proof.
  intros He. unfold scannet_len, scannet_init. cbn.
  by destruct (Z.eqb_spec e 0).
Qed.

(** With [skip] alone item [i] is frame [i * skip]. *)
Lemma scannet_frame_index_skip (frames : list Frame) nrr start stop (s i : Z) :
  s <> 0%Z ->
  scannet_frame_index (scannet_init frames nrr start stop (Some s) None) i = (i * s)%Z.
Proof.
  intros Hs. unfold scannet_frame_index, scannet_init. cbn.
  by destruct (Z.eqb_spec s 0).
Qed.

(** With both arguments the stored [skip_every] is applied on top of
    [skip]. *)
Lemma scannet_frame_index_both (frames : list Frame) nrr start stop (s e i : Z) :
  s <> 0%Z -> e <> 0%Z ->
  scannet_frame_index (scannet_init frames nrr start stop (Some s) (Some e)) i
  = (i * s + (i * s) / e)%Z.
Proof.
  intros Hs He. unfold scannet_frame_index, scannet_init. cbn.
  destruct (Z.eqb_spec s 0); [done|]. destruct (Z.eqb_spec e 0); [done|].
  cbn. lia.
Qed.

End ScanNetFacts.

(** C7 at [skip = 2], [skip_every = 3] on a capture of ten frames: the
    length is [ceil(10 / 2) = 5], but item 2 reads frame 5 and not frame
    [2 * 2 = 4]; with [skip] alone it reads frame 4. *)
Theorem scannet_skip_with_skip_every :
  scannet_len (scannet_init ten_frames None 0 10 (Some 2%Z) (Some 3%Z)) = 5%Z
  /\ scannet_frame_index (scannet_init ten_frames None 0 10 (Some 2%Z) (Some 3%Z)) 2 = 5%Z
  /\ scannet_getitem (scannet_init ten_frames None 0 10 (Some 2%Z) (Some 3%Z)) 2 = Ok 5
  /\ scannet_getitem (scannet_init ten_frames None 0 10 (Some 2%Z) None) 2 = Ok 4
  /\ map (scannet_frame_index (scannet_init ten_frames None 0 10 (Some 2%Z) (Some 3%Z)))
       (range 5) = [0; 2; 5; 8; 10]%Z
  /\ is_ok (scannet_getitem (scannet_init ten_frames None 0 10 (Some 2%Z) (Some 3%Z)) 4)
     = false.
Proof. repeat split; reflexivity. Qed.

(** *** Pooled indexing *)

Section RayDatasetFacts.
Context {Ray Bounds Target : Type}.

(** C6 (amended).  In pooled mode with [R > 0] rays per item and a pool of
    [T] rays, the length of a [ColmapDataset] or [LLFFColmapDataset] is
    [floor(T / R)], and [__getitem__(idx)] raises [IndexError] for every
    [idx] from the length on. *)
Theorem pooled_len_and_range (self : ray_dataset Ray Bounds Target) :
  (0 < rd_num_random_rays self)%Z ->
  ray_dataset_len self
  = Ok (Z.of_nat (length (rd_ray_targets self)) / rd_num_random_rays self)%Z
  /\ forall idx,
       (Z.of_nat (length (rd_ray_targets self)) / rd_num_random_rays self <= idx)%Z ->
       colmap_getitem self idx = Raise (IndexError "Not a valid batch number!")
       /\ llff_getitem self idx = Raise (IndexError "Not a valid batch number!").
Proof.
  intros HR.
  assert (Hlen : ray_dataset_len self
    = Ok (Z.of_nat (length (rd_ray_targets self)) / rd_num_random_rays self)%Z).
  { unfold ray_dataset_len, int_truediv.
    destruct (Z.leb_spec 0 (rd_num_random_rays self)); [|lia].
    destruct (Z.eqb_spec (rd_num_random_rays self) 0); [lia|].
    f_equal. apply Z.quot_div_nonneg; lia. }
  split; [done|]. intros idx Hidx.
  unfold colmap_getitem, llff_getitem. rewrite Hlen. cbn [mbind result_bind].
  destruct (Z.leb_spec
    (Z.of_nat (length (rd_ray_targets self)) / rd_num_random_rays self) idx); [done|lia].
Qed.

End RayDatasetFacts.

Lemma pooled_len_and_range_witness :
  (0 < rd_num_random_rays pool_by_two)%Z
  /\ ray_dataset_len pool_by_two = Ok 2%Z
  /\ forall idx,
       (Z.of_nat (length (rd_ray_targets pool_by_two)) / rd_num_random_rays pool_by_two
        <= idx)%Z ->
       colmap_getitem pool_by_two idx = Raise (IndexError "Not a valid batch number!")
       /\ llff_getitem pool_by_two idx = Raise (IndexError "Not a valid batch number!").
Proof.
  split; [reflexivity|]. apply (pooled_len_and_range pool_by_two). reflexivity.
Defined.

(** C6 as stated includes [R = 0], which is pooled mode for the code
    ([num_random_rays >= 0]): there [__len__] divides by zero, and so does
    [__getitem__] before it can compare the index. *)
Lemma pooled_zero_rays :
  (0 <= rd_num_random_rays pool_of_five)%Z
  /\ ray_dataset_len pool_of_five = Raise ZeroDivisionError
  /\ llff_getitem pool_of_five 5 = Raise ZeroDivisionError
  /\ colmap_getitem pool_of_five 5 = Raise ZeroDivisionError
  /\ ~ (exists n, ray_dataset_len pool_of_five = Ok n)
  /\ llff_getitem pool_of_five 5 <> Raise (IndexError "Not a valid batch number!").
Proof.
  split; [done|]. repeat split; try reflexivity.
  - intros [n Hn]. discriminate.
  - discriminate.
Qed.

Example pooled_items :
  llff_getitem pool_by_two 1 = Ok ([2; 3], [2; 3], [2; 3], [2; 3])%Z
  /\ colmap_getitem pool_by_two 1 = Ok ([2; 3], [2; 3], [0; 1; 2; 3; 4], [2; 3])%Z
  /\ llff_getitem pool_by_two 2 = Raise (IndexError "Not a valid batch number!").
Proof. repeat split; reflexivity. Qed.

End Datasets.

(** ** src/nerf/models.py *)

Module Models.

Section Variants.
(** Tensors are left abstract; [cat] is [torch.cat(ts, dim=-1)] and [relu]
    is [torch.nn.functional.relu].  A layer is a function on tensors. *)
Context {Tensor : Type}.
Context (cat : list Tensor -> Tensor).
Context (relu : Tensor -> Tensor).

(** Reading an attribute that [__init__] may not have set. *)
Definition attr {A} (name : string) (a : option A) : result A :=
  match a with
  | Some x => Ok x
  | None => Raise (AttributeError name)
  end.

(** Reading a local variable that may not have been assigned. *)
Definition local {A} (name : string) (a : option A) : result A :=
  match a with
  | Some x => Ok x
  | None => Raise (UnboundLocalError name)
  end.

(** The layers shared by [SimpleModel] and [SpecularSimpleModel]. *)
Record simple_layers : Type := {
  encode_xyz : Tensor -> Tensor;
  encode_dir : Tensor -> Tensor;
  layer0 : Tensor -> Tensor;
  hidden_all : Tensor -> Tensor -> Tensor;
  color : Tensor -> Tensor;
  depth : Tensor -> Tensor
}.

(** [SimpleModel]: [hidden_view] exists when [hidden_layers_view >= 0]. *)
Record SimpleModel : Type := {
  sm_layers : simple_layers;
  sm_hidden_layers_view_amount : Z;
  sm_hidden_view : option (Tensor -> Tensor -> Tensor)
}.

Definition SimpleModel_init (layers : simple_layers) (hidden_layers_view : Z)
  (hidden_view : Tensor -> Tensor -> Tensor) : SimpleModel :=
  {| sm_layers := layers;
     sm_hidden_layers_view_amount := hidden_layers_view;
     sm_hidden_view := if (0 <=? hidden_layers_view)%Z then Some hidden_view else None |}.

Definition SimpleModel_forward (self : SimpleModel) (ray_points : Tensor)
  (ray_directions : option Tensor) : result Tensor :=
  let xyz := encode_xyz (sm_layers self) ray_points in
  let x := layer0 (sm_layers self) xyz in
  let x := hidden_all (sm_layers self) x xyz in
  let depth_ := depth (sm_layers self) x in
  x ← match (0 <=? sm_hidden_layers_view_amount self)%Z, ray_directions with
      | true, Some dirs =>
          let xyzdir := cat [xyz; encode_dir (sm_layers self) dirs] in
          hidden_view ← attr "hidden_view" (sm_hidden_view self);
          Ok (hidden_view x xyzdir)
      | _, _ => Ok x
      end;
  let color_ := color (sm_layers self) x in
  Ok (cat [color_; depth_]).

(** [SpecularSimpleModel]: [hidden_view], [specular] and [combine] exist
    when [hidden_layers_view >= 0]. *)
Record SpecularSimpleModel : Type := {
  ss_layers : simple_layers;
  ss_hidden_layers_view_amount : Z;
  ss_hidden_view : option (Tensor -> Tensor -> Tensor);
  ss_specular : option (Tensor -> Tensor);
  ss_combine : option (Tensor -> Tensor -> Tensor)
}.

Definition SpecularSimpleModel_init (layers : simple_layers) (hidden_layers_view : Z)
  (hidden_view : Tensor -> Tensor -> Tensor) (specular : Tensor -> Tensor)
  (combine : Tensor -> Tensor -> Tensor) : SpecularSimpleModel :=
  let view := (0 <=? hidden_layers_view)%Z in
  {| ss_layers := layers;
     ss_hidden_layers_view_amount := hidden_layers_view;
     ss_hidden_view := if view then Some hidden_view else None;
     ss_specular := if view then Some specular else None;
     ss_combine := if view then Some combine else None |}.

(** [SpecularSimpleModel.forward]; the local [specular] is assigned in the
    view-conditioned branch only and read by the return statement. *)
Definition SpecularSimpleModel_forward (self : SpecularSimpleModel)
  (ray_points : Tensor) (ray_directions : option Tensor) : result (Tensor * Tensor) :=
  let xyz := encode_xyz (ss_layers self) ray_points in
  let x := layer0 (ss_layers self) xyz in
  let x := hidden_all (ss_layers self) x xyz in
  let depth_ := depth (ss_layers self) x in
  let color_ := color (ss_layers self) x in
  '(color_, specular_) ←
     match (0 <=? ss_hidden_layers_view_amount self)%Z, ray_directions with
     | true, Some dirs =>
         let xyzdir := cat [xyz; encode_dir (ss_layers self) dirs] in
         hidden_view ← attr "hidden_view" (ss_hidden_view self);
         let x := hidden_view x xyzdir in
         specular_layer ← attr "specular" (ss_specular self);
         let specular_ := relu (specular_layer x) in
         combine ← attr "combine" (ss_combine self);
         Ok (combine color_ specular_, Some specular_)
     | _, _ => Ok (color_, None)
     end;
  let out := cat [color_; depth_] in
  specular_ ← local "specular" specular_;
  Ok (out, specular_).

(** [FlatModel] and [ResModel] ignore the directions. *)
Record FlatModel : Type := {
  fm_embed : Tensor -> Tensor;
  fm_model0 : Tensor -> Tensor;
  fm_model1 : Tensor -> Tensor;
  fm_depth : Tensor -> Tensor;
  fm_color : Tensor -> Tensor
}.

Definition FlatModel_forward (self : FlatModel) (ray_points : Tensor)
  (ray_directions : option Tensor) : result Tensor :=
  let x := fm_embed self ray_points in
  let x_hat := fm_model0 self x in
  let x := fm_model1 self (cat [x; x_hat]) in
  Ok (cat [fm_color self x; fm_depth self x]).

Record ResModel : Type := {
  rm_embed : Tensor -> Tensor;
  rm_model0 : Tensor -> Tensor;
  rm_model1 : Tensor -> Tensor;
  rm_depth : Tensor -> Tensor;
  rm_color : Tensor -> Tensor
}.

Definition ResModel_forward (self : ResModel) (ray_points : Tensor)
  (ray_directions : option Tensor) : result Tensor :=
  let x := rm_embed self ray_points in
  let x_hat := rm_model0 self x in
  let x := rm_model1 self x_hat in
  Ok (cat [rm_color self x; rm_depth self x]).

(** [FlexibleNeRFModel]; [fx_encode_dir] is the positional encoding applied
    to whatever was passed as directions, [None] included. *)
Record FlexibleNeRFModel : Type := {
  fx_encode_xyz : Tensor -> Tensor;
  fx_encode_dir : option Tensor -> result Tensor;
  fx_skip_connect_every : Z;
  fx_num_layers : Z;
  fx_layer1 : Tensor -> Tensor;
  fx_layers_xyz : list (Tensor -> Tensor);
  fx_use_viewdirs : bool;
  fx_layers_dir : list (Tensor -> Tensor);
  fx_fc_alpha : Tensor -> Tensor;
  fx_fc_rgb : Tensor -> Tensor;
  fx_fc_feat : Tensor -> Tensor;
  fx_fc_out : Tensor -> Tensor
}.

Fixpoint flexible_layers (self : FlexibleNeRFModel) (xyz : Tensor) (i : Z)
  (layers : list (Tensor -> Tensor)) (x : Tensor) : result Tensor :=
  match layers with
  | [] => Ok x
  | layer :: rest =>
      if (fx_skip_connect_every self =? 0)%Z then Raise ZeroDivisionError
      else
        let x :=
          if ((i mod fx_skip_connect_every self =? 0) && (0 <? i)
              && negb (i =? fx_num_layers self - 1))%Z
          then cat [x; xyz] else x in
        flexible_layers self xyz (i + 1) rest (relu (layer x))
  end.

Definition FlexibleNeRFModel_forward (self : FlexibleNeRFModel) (ray_points : Tensor)
  (ray_directions : option Tensor) : result Tensor :=
  let xyz := fx_encode_xyz self ray_points in
  let x := fx_layer1 self xyz in
  x ← flexible_layers self xyz 0 (fx_layers_xyz self) x;
  if fx_use_viewdirs self then
    view ← fx_encode_dir self ray_directions;
    let feat := relu (fx_fc_feat self x) in
    let alpha := fx_fc_alpha self x in
    let x := cat [feat; view] in
    let x := fold_left (fun x l => relu (l x)) (fx_layers_dir self) x in
    let rgb := fx_fc_rgb self x in
    Ok (cat [rgb; alpha])
  else Ok (fx_fc_out self x).

(** *** Calling a model without view directions *)

Lemma flexible_layers_ok (self : FlexibleNeRFModel) xyz layers i x :
  fx_skip_connect_every self <> 0%Z ->
  is_ok (flexible_layers self xyz i layers x) = true.
Proof.
  intros Hskip. revert i x. induction layers as [|layer rest IH]; intros i x; [done|].
  cbn [flexible_layers]. destruct (Z.eqb_spec (fx_skip_connect_every self) 0); [done|].
  apply IH.
Qed.

(** C9.  [SpecularSimpleModel.forward] raises the unbound-local error on
    [specular] exactly when [ray_directions] is [None] or the model was built
    with [hidden_layers_view < 0]; so no construction of this variant can be
    called without view directions.  Its siblings can: [SimpleModel],
    [FlatModel] and [ResModel] return for any construction, and
    [FlexibleNeRFModel] does when built with [use_viewdirs = False]. *)
Theorem specular_forward_unbound (layers : simple_layers) (hidden_layers_view : Z)
  (hidden_view : Tensor -> Tensor -> Tensor) (specular : Tensor -> Tensor)
  (combine : Tensor -> Tensor -> Tensor) (ray_points : Tensor)
  (ray_directions : option Tensor) :
  (SpecularSimpleModel_forward
     (SpecularSimpleModel_init layers hidden_layers_view hidden_view specular combine)
     ray_points ray_directions = Raise (UnboundLocalError "specular")
   <-> ray_directions = None \/ (hidden_layers_view < 0)%Z)
  /\ (is_ok (SpecularSimpleModel_forward
               (SpecularSimpleModel_init layers hidden_layers_view hidden_view
                  specular combine)
               ray_points ray_directions) = true
      <-> ray_directions <> None /\ (0 <= hidden_layers_view)%Z)
  /\ is_ok (SimpleModel_forward (SimpleModel_init layers hidden_layers_view hidden_view)
              ray_points None) = true
  /\ (forall m : FlatModel, is_ok (FlatModel_forward m ray_points None) = true)
  /\ (forall m : ResModel, is_ok (ResModel_forward m ray_points None) = true)
  /\ (forall m : FlexibleNeRFModel,
        fx_use_viewdirs m = false -> fx_skip_connect_every m <> 0%Z ->
        is_ok (FlexibleNeRFModel_forward m ray_points None) = true).
Proof.
  split; [|split; [|split; [|split; [|split]]]].
  - unfold SpecularSimpleModel_forward, SpecularSimpleModel_init.
    cbn [ss_layers ss_hidden_layers_view_amount ss_hidden_view ss_specular ss_combine].
    destruct (Z.leb_spec 0 hidden_layers_view) as [Hge|Hlt];
      destruct ray_directions as [dirs|]; cbn; split; try done.
    + intros [?|?]; [done|lia].
    + intros _. by left.
    + intros _. by right.
    + intros _. by left.
  - unfold SpecularSimpleModel_forward, SpecularSimpleModel_init.
    cbn [ss_layers ss_hidden_layers_view_amount ss_hidden_view ss_specular ss_combine].
    destruct (Z.leb_spec 0 hidden_layers_view) as [Hge|Hlt];
      destruct ray_directions as [dirs|]; cbn; split; try done.
    + by intros [? _].
    + intros [_ ?]. lia.
    + by intros [? _].
  - unfold SimpleModel_forward, SimpleModel_init. cbn.
    by destruct (0 <=? hidden_layers_view)%Z.
  - done.
  - done.
  - intros m Hview Hskip. unfold FlexibleNeRFModel_forward.
    pose proof (flexible_layers_ok m (fx_encode_xyz m ray_points) (fx_layers_xyz m) 0
                  (fx_layer1 m (fx_encode_xyz m ray_points)) Hskip) as Hok.
    destruct (flexible_layers m _ 0 _ _); [|done]. cbn. by rewrite Hview.
Qed.

End Variants.

End Models.

(** ** src/mesh_nerf.py *)

Module MeshNerf.

(** *** The geometry cache *)

(** The file [np.save] writes: [".npy"] is appended unless it is there. *)
Definition np_save_name (file : string) : string :=
  if endswith file ".npy" then file else file +:+ ".npy".

(** [np.save(file, arr)] and [np.load(file)] on a file system that maps
    paths to what they hold; [dir_exists] tells whether the directory a path
    lies in exists, without which the file cannot be created. *)
Definition np_save {A} (dir_exists : string -> bool) (files : gmap string A)
  (file : string) (arr : A) : result (gmap string A) :=
  if dir_exists (np_save_name file)
  then Ok (<[np_save_name file := arr]> files)
  else Raise (FileNotFoundError (np_save_name file)).

Definition np_load {A} (files : gmap string A) (file : string) : result A :=
  match files !! file with
  | Some arr => Ok arr
  | None => Raise (FileNotFoundError file)
  end.

(** Where the [--cache-mesh] branch saves the geometry:
    [os.path.join(args.save_dir, args.save_dir+"mesh_cache.npy")]. *)
Definition mesh_cache_save_path (save_dir : string) : string :=
  path_join save_dir (save_dir +:+ "mesh_cache.npy").

(** Where the [--no-cache-mesh] branch loads it from:
    [os.path.join(args.save_dir, "mesh_cache.npy")]. *)
Definition mesh_cache_load_path (save_dir : string) : string :=
  path_join save_dir "mesh_cache.npy".

(** *** Recoloring the mesh, default path *)

(** [batch_size = 160*8*8] *)
Definition batch_size : Z := 160 * 8 * 8.

Section Recolor.
(** Floating point numbers with the operations the tool uses on them;
    [f0_001] is the literal [0.001]. *)
Context {F : Type}.
Context (fneg : F -> F) (fsub fmul fdiv : F -> F -> F) (of_int : Z -> F) (f0_001 : F).

(** A two-dimensional tensor, row by row. *)
#[local] Abbreviation tensor := (list (list F)).

(** [t[:, [1, 0, 2]]] *)
Definition reorder (t : tensor) : tensor :=
  map (fun row => match row with
                  | [a; b; c] => [b; a; c]
                  | _ => row
                  end) t.

(** [view_disparity = 2 * limit / N], a division of a float by an integer *)
Definition view_disparity (limit : F) (N : Z) : result F :=
  if (N =? 0)%Z then Raise ZeroDivisionError
  else Ok (fdiv (fmul (of_int 2) limit) (of_int N)).

(** [targets - view_disparity * inv_normals] *)
Definition ray_origins_of (vd : F) (targets inv_normals : tensor) : tensor :=
  zip_with (zip_with (fun t n => fsub t (fmul vd n))) targets inv_normals.

(** [tensor([0.001, 2 * view_disparity]).view(1, 2).expand(batch_size, 2)] *)
Definition ray_bounds_of (vd : F) : tensor :=
  replicate (Z.to_nat batch_size) [f0_001; fmul (of_int 2) vd].

(** The tuple one iteration of the loop passes to the model. *)
Definition ray_batch (vd : F) (targets inv_normals : tensor) (n_vertices idx : Z)
  : list tensor :=
  let offset1 := (batch_size * idx)%Z in
  let offset2 := Z.min (batch_size * (idx + 1)) n_vertices in
  let pos_batch := slice (ray_origins_of vd targets inv_normals) offset1 offset2 in
  let normal_batch := slice inv_normals offset1 offset2 in
  let ray_bounds_batch := slice (ray_bounds_of vd) 0 (offset2 - offset1) in
  [pos_batch; normal_batch; ray_bounds_batch].

(** The [if not specific_view:] block of [main]: the per-vertex colors, or
    the exception that ends the run.  [model] is the call [model(...)]. *)
Definition recolor (model : list tensor -> result (NeRFModel.render_out tensor))
  (vertices normals : tensor) (limit : F) (N : Z) : result tensor :=
  vd ← view_disparity limit N;
  let targets := reorder vertices in
  let inv_normals := reorder (map (map fneg) normals) in
  let n_targets := Z.of_nat (length targets) in
  pred ← fold_left
           (fun acc idx =>
              pred ← acc;
              out ← model (ray_batch vd targets inv_normals
                             (Z.of_nat (length vertices)) idx);
              diffuse ← match NeRFModel.rgb_fine out with
                        | Some d => Ok d
                        | None => Raise (AttributeError "cpu")
                        end;
              Ok (pred ++ [diffuse]))
           (range (n_targets / batch_size + 1))
           (Ok []);
  Ok (concat pred).

End Recolor.

(** *** The cache is saved under one name and loaded under another *)

Lemma endswith_sep_has_slash (s : string) :
  endswith_sep s = true -> existsb (Ascii.eqb "/") (list_ascii_of_string s) = true.
Proof.
  induction s as [|c s IH]; [done|]. cbn [endswith_sep list_ascii_of_string existsb].
  destruct s as [|c' s'].
  - intros Hc. rewrite Ascii.eqb_sym, Hc. done.
  - intros Hs. rewrite (IH Hs). apply orb_true_r.
Qed.

Lemma basename_endswith_sep (s : string) :
  endswith_sep s = true -> basename s = EmptyString.
Proof.
  induction s as [|c s IH]; [done|]. cbn [endswith_sep basename].
  destruct s as [|c' s'].
  - intros ->. done.
  - intros Hs. rewrite (endswith_sep_has_slash _ Hs), (IH Hs).
    by destruct (Ascii.eqb c "/").
Qed.

Lemma basename_nonempty (s : string) :
  basename s <> EmptyString -> s <> EmptyString /\ endswith_sep s = false.
Proof.
  intros Hb. split.
  - by intros ->.
  - destruct (endswith_sep s) eqn:E; [|done].
    by apply basename_endswith_sep in E.
Qed.

Lemma length_append (a b : string) :
  String.length (a +:+ b) = String.length a + String.length b.
Proof. induction a as [|c a IH]; simpl; [done|]. by rewrite IH. Qed.

Lemma endswith_append (a b : string) : endswith (a +:+ b) b = true.
Proof.
  induction a as [|c a IH].
  - destruct b; cbn [String.append endswith]; by rewrite String.eqb_refl.
  - cbn [String.append endswith]. rewrite IH. apply orb_true_r.
Qed.

Lemma mesh_cache_save_path_cases (save_dir : string) :
  basename save_dir <> EmptyString ->
  mesh_cache_save_path save_dir
  = if startswith_sep save_dir then save_dir +:+ "mesh_cache.npy"
    else save_dir +:+ "/" +:+ save_dir +:+ "mesh_cache.npy".
Proof.
  intros [Hne Hend]%basename_nonempty. unfold mesh_cache_save_path, path_join.
  rewrite Hend. destruct save_dir as [|c s]; [done|].
  cbn [String.append startswith_sep]. by destruct (Ascii.eqb c "/").
Qed.

Lemma mesh_cache_load_path_eq (save_dir : string) :
  basename save_dir <> EmptyString ->
  mesh_cache_load_path save_dir = save_dir +:+ "/mesh_cache.npy".
Proof.
  intros [Hne Hend]%basename_nonempty. unfold mesh_cache_load_path, path_join.
  rewrite Hend. cbn [startswith_sep]. destruct save_dir; [done|]. done.
Qed.

Lemma np_save_name_mesh_cache (save_dir : string) :
  np_save_name (mesh_cache_save_path save_dir) = mesh_cache_save_path save_dir.
Proof.
  unfold np_save_name.
  assert (Hend : endswith (mesh_cache_save_path save_dir) ".npy" = true); [|by rewrite Hend].
  unfold mesh_cache_save_path, path_join.
  assert (Hs : forall a, endswith (a +:+ save_dir +:+ "mesh_cache.npy") ".npy" = true).
  { intros a. change "mesh_cache.npy" with ("mesh_cache" +:+ ".npy").
    rewrite <- !Config.append_assoc. apply endswith_append. }
  destruct (startswith_sep _); [apply (Hs "")|].
  destruct (_ || _); [apply Hs|].
  rewrite <- Config.append_assoc. apply Hs.
Qed.

(** C10.  For every [save_dir] whose final path component is not empty, the
    path the [--cache-mesh] branch saves the geometry to differs from the path
    the [--no-cache-mesh] branch loads: after a save under the first path the
    load sees what was (or was not) under the second path before. *)
Theorem mesh_cache_not_read_back {A} (save_dir : string) :
  basename save_dir <> EmptyString ->
  mesh_cache_save_path save_dir <> mesh_cache_load_path save_dir
  /\ basename (mesh_cache_load_path save_dir) = "mesh_cache.npy"
  /\ forall (dir_exists : string -> bool) (files files' : gmap string A) (geometry : A),
       np_save dir_exists files (mesh_cache_save_path save_dir) geometry = Ok files' ->
       files' !! mesh_cache_save_path save_dir = Some geometry
       /\ np_load files' (mesh_cache_load_path save_dir)
          = np_load files (mesh_cache_load_path save_dir).
Proof.
  intros Hb.
  assert (Hne : mesh_cache_save_path save_dir <> mesh_cache_load_path save_dir).
  { rewrite mesh_cache_save_path_cases, mesh_cache_load_path_eq by done.
    destruct (basename_nonempty _ Hb) as [Hs _].
    destruct (startswith_sep save_dir).
    - intros Heq%Config.append_inj_l. discriminate.
    - intros Heq%Config.append_inj_l. cbn [String.append] in Heq.
      injection Heq as Heq. apply (f_equal String.length) in Heq.
      rewrite length_append in Heq. destruct save_dir; [done|]. simpl in Heq. lia. }
  split; [done|]. split.
  - rewrite mesh_cache_load_path_eq by done. clear Hb Hne.
    induction save_dir as [|c s IH]; [done|].
    cbn [String.append basename]. rewrite IH.
    assert (Hslash : existsb (Ascii.eqb "/")
                       (list_ascii_of_string (s +:+ "/mesh_cache.npy")) = true).
    { clear IH. induction s as [|c' s IHs]; [done|].
      cbn [String.append list_ascii_of_string existsb]. rewrite IHs. apply orb_true_r. }
    rewrite Hslash. by destruct (Ascii.eqb c "/").
  - intros dir_exists files files' geometry. unfold np_load, np_save.
    rewrite np_save_name_mesh_cache.
    destruct (dir_exists _); [|done]. intros [= <-].
    by rewrite lookup_insert_eq, lookup_insert_ne.
Qed.

Lemma mesh_cache_not_read_back_witness :
  basename "." <> EmptyString
  /\ mesh_cache_save_path "." = "./.mesh_cache.npy"
  /\ mesh_cache_load_path "." = "./mesh_cache.npy"
  /\ mesh_cache_save_path "." <> mesh_cache_load_path "."
  /\ basename (mesh_cache_load_path ".") = "mesh_cache.npy"
  /\ forall (dir_exists : string -> bool) (files files' : gmap string nat) (geometry : nat),
       np_save dir_exists files (mesh_cache_save_path ".") geometry = Ok files' ->
       files' !! mesh_cache_save_path "." = Some geometry
       /\ np_load files' (mesh_cache_load_path ".")
          = np_load files (mesh_cache_load_path ".").
Proof.
  split; [discriminate|]. split; [reflexivity|]. split; [reflexivity|].
  apply (@mesh_cache_not_read_back nat "."). discriminate.
Defined.

(** With a trailing slash the two paths coincide. *)
Example mesh_cache_trailing_slash :
  mesh_cache_save_path "/out/" = mesh_cache_load_path "/out/".
Proof. reflexivity. Qed.

(** *** The rays of the default recoloring path *)

Lemma lookup_map {A B} (f : A -> B) (l : list A) (j : nat) :
  map f l !! j = f <$> (l !! j).
Proof. revert j. induction l as [|a l IH]; intros [|j]; cbn; auto. Qed.

Lemma range_succ (k : Z) :
  (0 <= k)%Z -> exists rest, range (k + 1) = 0%Z :: rest.
Proof.
  intros Hk. unfold range. rewrite Z2Nat.inj_add by lia.
  rewrite Nat.add_comm. cbn. eauto.
Qed.

Lemma fold_raise {A B} (f : result A -> B -> result A) (l : list B) (e : exn) :
  (forall b, f (Raise e) b = Raise e) -> fold_left f l (Raise e) = Raise e.
Proof. intros Hf. induction l as [|b l IH]; [done|]. cbn. by rewrite Hf. Qed.

Section RecolorFacts.
Context {F : Type}.
Context (fneg : F -> F) (fsub fmul fdiv : F -> F -> F) (of_int : Z -> F) (f0_001 : F).

(** The ray built for vertex [j] from a disparity [d] (the tool passes
    [2 * limit / N]): with the coordinates of the vertex and of its negated
    normal reordered, the origin is [vertex - d * inverted normal], the
    direction is the inverted normal and the bounds are [(0.001, 2 * d)],
    one row for each of the 10240 rays of a batch. *)
Lemma recolor_rays (vertices normals : list (list F)) (d : F)
  (j : nat) (x y z nx ny nz : F) :
  vertices !! j = Some [x; y; z] ->
  normals !! j = Some [nx; ny; nz] ->
  ray_origins_of fsub fmul d (reorder vertices) (reorder (map (map fneg) normals)) !! j
  = Some [fsub y (fmul d (fneg ny)); fsub x (fmul d (fneg nx)); fsub z (fmul d (fneg nz))]
  /\ reorder (map (map fneg) normals) !! j = Some [fneg ny; fneg nx; fneg nz]
  /\ (forall i row, ray_bounds_of fmul of_int f0_001 d !! i = Some row ->
                    row = [f0_001; fmul (of_int 2) d])
  /\ Z.of_nat (length (ray_bounds_of fmul of_int f0_001 d)) = 10240%Z.
Proof.
  intros Hv Hn. split; [|split; [|split]].
  - unfold ray_origins_of, reorder. rewrite lookup_zip_with, !lookup_map, Hv, Hn. done.
  - unfold reorder. rewrite !lookup_map, Hn. done.
  - intros i row Hrow. unfold ray_bounds_of in Hrow.
    by apply lookup_replicate in Hrow as [-> _].
  - unfold ray_bounds_of. rewrite length_replicate. reflexivity.
Qed.

Context {Scalar : Type} `{NeRFModel.TorchOps (list (list F)) Scalar}.

(** A model whose call accepts the triple colors the mesh. *)
Lemma recolor_accepting (model : list (list (list F)) ->
                                 result (NeRFModel.render_out (list (list F))))
  (vertices normals : list (list F)) (limit : F) (N : Z) :
  N <> 0%Z ->
  (forall x, exists r dcol, model x = Ok r /\ NeRFModel.rgb_fine r = Some dcol) ->
  is_ok (recolor fneg fsub fmul fdiv of_int f0_001 model vertices normals limit N) = true.
Proof.
  intros HN Hmodel. unfold recolor, view_disparity.
  destruct (Z.eqb_spec N 0) as [|_]; [done|]. cbn [mbind result_bind].
  generalize (fdiv (fmul (of_int 2) limit) (of_int N)). intros d.
  generalize (range (Z.of_nat (length (reorder vertices)) / batch_size + 1)).
  intros idxs.
  assert (Hfold : forall acc0,
    exists pred, fold_left
      (fun acc idx =>
         pred ← acc;
         out ← model (ray_batch fsub fmul of_int f0_001 d
                        (reorder vertices) (reorder (map (map fneg) normals))
                        (Z.of_nat (length vertices)) idx);
         diffuse ← match NeRFModel.rgb_fine out with
                   | Some dcol => Ok dcol
                   | None => Raise (AttributeError "cpu")
                   end;
         Ok (pred ++ [diffuse])) idxs (Ok acc0) = Ok pred).
  { induction idxs as [|idx idxs IH]; intros acc0; [by eexists|].
    cbn [fold_left mbind result_bind].
    destruct (Hmodel (ray_batch fsub fmul of_int f0_001 d
                        (reorder vertices) (reorder (map (map fneg) normals))
                        (Z.of_nat (length vertices)) idx)) as (r & dcol & Hr & Hd).
    rewrite Hr. cbn [mbind result_bind]. rewrite Hd. cbn [mbind result_bind].
    apply IH. }
  destruct (Hfold []) as [pred ->]. done.
Qed.

(** C1 on the code.  The default recoloring path hands the triple
    (origins, directions, bounds) of its first batch to [NeRFModel.forward],
    whose unpacking takes exactly two values: for every model, every mesh and
    every resolution the run ends in an exception, the tuple-arity error
    unless the resolution is zero, and no vertex receives a color. *)
Theorem recolor_forward_raises (self : NeRFModel.model (list (list F)) Scalar)
  (vertices normals : list (list F)) (limit : F) (N : Z) :
  recolor fneg fsub fmul fdiv of_int f0_001 (NeRFModel.forward self)
    vertices normals limit N
  = if (N =? 0)%Z then Raise ZeroDivisionError
    else Raise (ValueError "too many values to unpack (expected 2)").
Proof.
  unfold recolor, view_disparity. destruct (N =? 0)%Z; [done|].
  cbn [mbind result_bind].
  destruct (range_succ (Z.of_nat (length (reorder vertices)) / batch_size)) as [rest ->].
  { apply Z.div_pos; [lia|reflexivity]. }
  cbn [fold_left]. unfold ray_batch.
  cbn [mbind result_bind]. rewrite NeRFModel.forward_triple. cbn [mbind result_bind].
  rewrite fold_raise; [done|]. intros b. reflexivity.
Qed.

End RecolorFacts.

End MeshNerf.


(** ** src/data/datasets.py: items, iteration and cache files *)

Module DatasetItems.

Import Datasets.

(** The [R] rays of item [idx] of a pool. *)
Definition chunk {A} (R idx : Z) (l : list A) : list A :=
  take (Z.to_nat R) (drop (Z.to_nat (idx * R)) l).

(** The targets of an item, nothing when [__getitem__] raises. *)
Definition item_targets {Ray Bounds Target}
  (r : result (list Ray * list Ray * list Bounds * list Target)) : list Target :=
  match r with
  | Ok (_, _, _, t) => t
  | Raise _ => []
  end.

(** [for data in dataset] on an object that defines [__getitem__] and no
    [__iter__]: items 0, 1, 2, ... are fetched until [__getitem__] raises
    [IndexError], which ends the loop; any other exception leaves it.
    [fuel] bounds the number of items fetched. *)
Fixpoint iterate {A} (fuel : nat) (getitem : Z -> result A) (idx : Z)
  : result (list A) :=
  match fuel with
  | O => Raise (RuntimeError "iteration not finished")
  | S fuel' =>
      match getitem idx with
      | Ok x => xs ← iterate fuel' getitem (idx + 1); Ok (x :: xs)
      | Raise (IndexError _) => Ok []
      | Raise e => Raise e
      end
  end.

(** Three images, numbered, one item per image. *)
Definition three_images : ray_dataset Z Z Z := {|
  rd_num_random_rays := -1;
  rd_ray_targets := [0; 1; 2]%Z;
  rd_all_ray_origins := [0; 1; 2]%Z;
  rd_all_ray_directions := [0; 1; 2]%Z;
  rd_ray_bounds := [0; 1; 2]%Z
|}.

(** [str(n)] for an integer *)
Definition py_str (n : Z) : string := NilZero.string_of_int (Z.to_int n).

Definition zeros (n : nat) : string := string_of_list_ascii (List.repeat "0"%char n).

(** [s.zfill(width)]: zeros on the left, after a sign *)
Definition zfill (width : nat) (s : string) : string :=
  let fill := zeros (width - String.length s) in
  match s with
  | String c rest =>
      if Ascii.eqb c "+" || Ascii.eqb c "-" then String c (fill +:+ rest) else fill +:+ s
  | EmptyString => fill
  end.

(** The file name [save_dataset] builds. *)
Definition save_name (img_idx batch_idx : Z) : string :=
  if negb (batch_idx =? -1)%Z
  then zfill 4 (py_str img_idx) +:+ zfill 4 (py_str batch_idx) +:+ ".data"
  else zfill 4 (py_str img_idx) +:+ ".data".

Definition save_path (cfg : caching_cfg) (type : DatasetType) (img_idx batch_idx : Z)
  : string :=
  path_join (path_join (cache_dir cfg) (DatasetType_value type))
    (save_name img_idx batch_idx).

Definition is_validation (type : DatasetType) : bool :=
  match type with VALIDATION => true | _ => false end.

(** The calls [save_dataset(..., img_idx, batch_idx)] of
    [BlenderDataset.cache_dataset] on [n_images] images, in order; [-1] is
    the default of [batch_idx]. *)
Definition blender_saves (sample_all : bool) (num_variations : Z) (type : DatasetType)
  (n_images : Z) : list (Z * Z) :=
  flat_map (fun img_idx =>
              if sample_all || is_validation type then [(img_idx, -1)%Z]
              else map (fun batch_idx => (img_idx, batch_idx)) (range num_variations))
    (range n_images).

Definition blender_cache_paths (cfg : caching_cfg) (sample_all : bool) (num_variations : Z)
  (type : DatasetType) (n_images : Z) : list string :=
  map (fun '(img_idx, batch_idx) => save_path cfg type img_idx batch_idx)
    (blender_saves sample_all num_variations type n_images).

(** [p] lies below the directory [dir]. *)
Definition under (dir p : string) : bool := String.prefix (dir +:+ "/") p.

(** Reading a four-digit field back. *)
Definition field_value (s : string) : Z :=
  match NilZero.uint_of_string s with
  | Some u => Z.of_uint u
  | None => -1
  end.

Definition field_ok (n : Z) : bool :=
  (String.length (zfill 4 (py_str n)) =? 4) && (field_value (zfill 4 (py_str n)) =? n)%Z
  && negb (startswith_sep (zfill 4 (py_str n))).





(** *** Slices *)

Lemma slice_take_drop {A} (l : list A) (a b : Z) :
  (0 <= a <= b)%Z ->
  slice l a b = take (Z.to_nat (b - a)) (drop (Z.to_nat a) l).
Proof.
  intros Hab. unfold slice, clamp_index.
  destruct (Z.ltb_spec a 0) as [?|_]; [lia|].
  destruct (Z.ltb_spec b 0) as [?|_]; [lia|].
  set (n := Z.of_nat (length l)).
  assert (Hn : length l = Z.to_nat n) by (unfold n; lia).
  destruct (Z.le_gt_cases n a) as [Hge|Hlt].
  - rewrite !drop_ge by lia. by rewrite !take_nil.
  - replace (Z.max 0 (Z.min n a)) with a by lia.
    destruct (Z.le_gt_cases n b) as [Hbge|Hblt].
    + replace (Z.max 0 (Z.min n b)) with n by lia.
      rewrite !take_ge; [done| |]; rewrite length_drop; lia.
    + by replace (Z.max 0 (Z.min n b)) with b by lia.
Qed.

Lemma slice_to_zero {A} (l : list A) (a : Z) : slice l a 0 = [].
Proof.
  unfold slice, clamp_index. cbn [Z.ltb Z.compare].
  set (n := Z.of_nat (length l)).
  replace (Z.max 0 (Z.min n 0)) with 0%Z by lia.
  assert (H : Z.to_nat (0 - Z.max 0 (Z.min n (if (a <? 0)%Z then (a + n)%Z else a))) = 0)
    by lia.
  rewrite H. apply take_0.
Qed.

Lemma chunks_concat {A} (R : Z) (l : list A) (k : nat) :
  (0 <= R)%Z ->
  concat (map (fun idx => chunk R idx l) (range (Z.of_nat k)))
  = take (Z.to_nat (Z.of_nat k * R)) l.
Proof.
  intros HR. unfold range. rewrite Nat2Z.id.
  induction k as [|k IH]; [by rewrite take_0|].
  rewrite seq_S, !map_app, concat_app, IH. cbn [map concat Nat.add].
  rewrite app_nil_r. unfold chunk.
  rewrite take_take_drop. f_equal. lia.
Qed.

Section PooledItems.
Context {Ray Bounds Target : Type}.

Lemma pooled_len (self : ray_dataset Ray Bounds Target) :
  (0 < rd_num_random_rays self)%Z ->
  ray_dataset_len self
  = Ok (Z.of_nat (length (rd_ray_targets self)) / rd_num_random_rays self)%Z.
Proof.
  intros HR. unfold ray_dataset_len, int_truediv.
  destruct (Z.leb_spec 0 (rd_num_random_rays self)); [|lia].
  destruct (Z.eqb_spec (rd_num_random_rays self) 0); [lia|].
  f_equal. apply Z.quot_div_nonneg; lia.
Qed.

Lemma pooled_chunks (self : ray_dataset Ray Bounds Target) (idx : Z) :
  (0 < rd_num_random_rays self)%Z ->
  (0 <= idx < Z.of_nat (length (rd_ray_targets self)) / rd_num_random_rays self)%Z ->
  llff_getitem self idx
  = Ok (chunk (rd_num_random_rays self) idx (rd_all_ray_origins self),
        chunk (rd_num_random_rays self) idx (rd_all_ray_directions self),
        chunk (rd_num_random_rays self) idx (rd_ray_bounds self),
        chunk (rd_num_random_rays self) idx (rd_ray_targets self))
  /\ colmap_getitem self idx
     = Ok (chunk (rd_num_random_rays self) idx (rd_all_ray_origins self),
           chunk (rd_num_random_rays self) idx (rd_all_ray_directions self),
           rd_ray_bounds self,
           chunk (rd_num_random_rays self) idx (rd_ray_targets self)).
Proof.
  intros HR Hidx.
  set (R := rd_num_random_rays self) in *.
  set (T := Z.of_nat (length (rd_ray_targets self))) in *.
  assert (Hslice : forall {A} (l : list A),
            slice l (idx * R) (idx * R + R) = chunk R idx l).
  { intros A l. rewrite slice_take_drop by nia. unfold chunk. do 2 f_equal. lia. }
  unfold llff_getitem, colmap_getitem. rewrite pooled_len by done.
  cbn [mbind result_bind]. fold R T.
  destruct (Z.leb_spec (T / R) idx) as [?|_]; [lia|].
  unfold item_indices. fold R.
  destruct (Z.leb_spec 0 R) as [_|?]; [|lia].
  rewrite !Hslice. done.
Qed.

(** X1.  In pooled mode every index below the length selects the [R] consecutive
    rays [idx*R .. idx*R + R - 1] of each tensor ([ColmapDataset] hands out
    its bounds tensor whole); the item holds exactly [R] targets. *)
Theorem pooled_item (self : ray_dataset Ray Bounds Target) (idx : Z) :
  (0 < rd_num_random_rays self)%Z ->
  (0 <= idx < Z.of_nat (length (rd_ray_targets self)) / rd_num_random_rays self)%Z ->
  llff_getitem self idx
  = Ok (chunk (rd_num_random_rays self) idx (rd_all_ray_origins self),
        chunk (rd_num_random_rays self) idx (rd_all_ray_directions self),
        chunk (rd_num_random_rays self) idx (rd_ray_bounds self),
        chunk (rd_num_random_rays self) idx (rd_ray_targets self))
  /\ colmap_getitem self idx
     = Ok (chunk (rd_num_random_rays self) idx (rd_all_ray_origins self),
           chunk (rd_num_random_rays self) idx (rd_all_ray_directions self),
           rd_ray_bounds self,
           chunk (rd_num_random_rays self) idx (rd_ray_targets self))
  /\ Z.of_nat (length (chunk (rd_num_random_rays self) idx (rd_ray_targets self)))
     = rd_num_random_rays self.
Proof.
  intros HR Hidx. destruct (pooled_chunks self idx HR Hidx) as [Hl Hc].
  split; [done|]. split; [done|].
  unfold chunk. rewrite length_take, length_drop.
  assert ((idx + 1) * rd_num_random_rays self
          <= Z.of_nat (length (rd_ray_targets self)))%Z.
  { pose proof (Z.mul_div_le (Z.of_nat (length (rd_ray_targets self)))
                  (rd_num_random_rays self) HR). nia. }
  lia.
Qed.

(** X2.  The items of a pooled dataset, taken in order, are the first
    [len * R] rays of the pool: the last [T mod R] rays are in no item. *)
Theorem pooled_items_cover (self : ray_dataset Ray Bounds Target) :
  (0 < rd_num_random_rays self)%Z ->
  let R := rd_num_random_rays self in
  let T := Z.of_nat (length (rd_ray_targets self)) in
  concat (map (fun idx => item_targets (llff_getitem self idx)) (range (T / R)))
  = take (Z.to_nat (T / R * R)) (rd_ray_targets self)
  /\ concat (map (fun idx => item_targets (colmap_getitem self idx)) (range (T / R)))
     = take (Z.to_nat (T / R * R)) (rd_ray_targets self)
  /\ (T - T / R * R = T mod R)%Z.
Proof.
  intros HR R T.
  assert (Hlen : (0 <= T / R)%Z) by (apply Z.div_pos; unfold T; lia).
  assert (Hitems : forall idx, In idx (range (T / R)) ->
            item_targets (llff_getitem self idx) = chunk R idx (rd_ray_targets self)
            /\ item_targets (colmap_getitem self idx) = chunk R idx (rd_ray_targets self)).
  { intros idx Hin. unfold range in Hin. apply in_map_iff in Hin as (i & <- & Hi).
    apply in_seq in Hi.
    destruct (pooled_chunks self (Z.of_nat i) HR) as (-> & ->); [|done].
    fold R T. lia. }
  split; [|split].
  - rewrite (map_ext_in _ (fun idx => chunk R idx (rd_ray_targets self)))
      by (intros idx Hin; apply (Hitems idx Hin)).
    rewrite <- (Z2Nat.id (T / R)) at 1 by done.
    rewrite chunks_concat by lia. do 2 f_equal. lia.
  - rewrite (map_ext_in _ (fun idx => chunk R idx (rd_ray_targets self)))
      by (intros idx Hin; apply (Hitems idx Hin)).
    rewrite <- (Z2Nat.id (T / R)) at 1 by done.
    rewrite chunks_concat by lia. do 2 f_equal. lia.
  - pose proof (Z.div_mod T R ltac:(lia)). lia.
Qed.

(** Iterating by index ends without an error after the items below [n]
    when those exist and index [n] is out of range. *)
Lemma iterate_until {A} (getitem : Z -> result A) (f : Z -> A) (n : nat) (msg : string) :
  (forall i, (0 <= i < Z.of_nat n)%Z -> getitem i = Ok (f i)) ->
  getitem (Z.of_nat n) = Raise (IndexError msg) ->
  forall fuel, n < fuel ->
    iterate fuel getitem 0 = Ok (map f (range (Z.of_nat n))).
Proof.
  intros Hitems Hend.
  assert (Hgen : forall k fuel (i : nat),
    i + k = n -> k < fuel ->
    iterate fuel getitem (Z.of_nat i)
    = Ok (map f (map Z.of_nat (seq i k)))).
  { induction k as [|k IH]; intros fuel i Hik Hfuel.
    - destruct fuel as [|fuel]; [lia|]. cbn [iterate].
      replace i with n by lia. by rewrite Hend.
    - destruct fuel as [|fuel]; [lia|]. cbn [iterate].
      rewrite Hitems by lia. cbn [seq map].
      replace (Z.of_nat i + 1)%Z with (Z.of_nat (S i)) by lia.
      rewrite (IH fuel (S i)) by lia. done. }
  intros fuel Hfuel. unfold range. rewrite Nat2Z.id.
  apply (Hgen n fuel 0); lia.
Qed.

(** X3.  A loop [for data in dataset] over a pooled dataset visits exactly the
    [len(dataset)] items and ends; with no rays per item it leaves through
    the division by zero. *)
Theorem pooled_iteration (self : ray_dataset Ray Bounds Target) (fuel : nat) :
  let R := rd_num_random_rays self in
  let T := Z.of_nat (length (rd_ray_targets self)) in
  ((0 < R)%Z -> (T / R < Z.of_nat fuel)%Z ->
   exists items,
     iterate fuel (llff_getitem self) 0 = Ok items
     /\ Z.of_nat (length items) = (T / R)%Z
     /\ map (fun it => item_targets (Ok it)) items
        = map (fun idx => chunk R idx (rd_ray_targets self)) (range (T / R)))
  /\ (R = 0%Z -> 0 < fuel -> iterate fuel (llff_getitem self) 0 = Raise ZeroDivisionError).
Proof.
  intros R T. split.
  - intros HR Hfuel.
    assert (Hlen : (0 <= T / R)%Z) by (apply Z.div_pos; unfold T; lia).
    set (f := fun idx : Z =>
           (chunk R idx (rd_all_ray_origins self),
            chunk R idx (rd_all_ray_directions self),
            chunk R idx (rd_ray_bounds self),
            chunk R idx (rd_ray_targets self))).
    exists (map f (range (T / R))).
    split; [|split].
    + rewrite <- (Z2Nat.id (T / R)) by done.
      apply (iterate_until _ f _ "Not a valid batch number!"); [| |lia].
      * intros i Hi. apply (pooled_chunks self i HR). fold R T. lia.
      * unfold llff_getitem. rewrite pooled_len by done. cbn [mbind result_bind].
        fold R T. rewrite Z2Nat.id by done.
        by destruct (Z.leb_spec (T / R) (T / R)); [|lia].
    + unfold range. rewrite !length_map, length_seq. lia.
    + rewrite map_map. done.
  - intros HR Hfuel. destruct fuel as [|fuel]; [lia|]. cbn [iterate].
    unfold llff_getitem, ray_dataset_len, int_truediv. fold R. rewrite HR. done.
Qed.

End PooledItems.

Lemma pooled_item_witness :
  (0 < rd_num_random_rays pool_by_two)%Z
  /\ (0 <= 1 < Z.of_nat (length (rd_ray_targets pool_by_two))
                / rd_num_random_rays pool_by_two)%Z
  /\ llff_getitem pool_by_two 1 = Ok ([2; 3], [2; 3], [2; 3], [2; 3])%Z
  /\ colmap_getitem pool_by_two 1 = Ok ([2; 3], [2; 3], [0; 1; 2; 3; 4], [2; 3])%Z
  /\ Z.of_nat (length (chunk (rd_num_random_rays pool_by_two) 1
                         (rd_ray_targets pool_by_two))) = 2%Z.
Proof.
  split; [reflexivity|]. split; [by vm_compute|].
  apply (pooled_item pool_by_two 1); by vm_compute.
Defined.

Lemma pooled_items_cover_witness :
  (0 < rd_num_random_rays pool_by_two)%Z
  /\ concat (map (fun idx => item_targets (llff_getitem pool_by_two idx)) (range (5 / 2)))
     = [0; 1; 2; 3]%Z
  /\ concat (map (fun idx => item_targets (colmap_getitem pool_by_two idx)) (range (5 / 2)))
     = take (Z.to_nat (5 / 2 * 2)) (rd_ray_targets pool_by_two)
  /\ (5 - 5 / 2 * 2 = 5 mod 2)%Z.
Proof.
  split; [reflexivity|]. apply (pooled_items_cover pool_by_two). reflexivity.
Defined.

Section WholeImages.
Context {Ray Bounds Target : Type}.

(** X4.  In per-image mode ([num_random_rays < 0]) the length is the number of
    images, item [idx] is image [idx] alone, and indices from the length on
    raise [IndexError]. *)
Theorem per_image_item (self : ray_dataset Ray Bounds Target) :
  (rd_num_random_rays self < 0)%Z ->
  ray_dataset_len self = Ok (Z.of_nat (length (rd_ray_targets self)))
  /\ (forall (i : nat) (t : Target),
        rd_ray_targets self !! i = Some t ->
        item_targets (llff_getitem self (Z.of_nat i)) = [t]
        /\ item_targets (colmap_getitem self (Z.of_nat i)) = [t]
        /\ is_ok (llff_getitem self (Z.of_nat i)) = true
        /\ is_ok (colmap_getitem self (Z.of_nat i)) = true)
  /\ (forall idx, (Z.of_nat (length (rd_ray_targets self)) <= idx)%Z ->
        llff_getitem self idx = Raise (IndexError "Not a valid batch number!")
        /\ colmap_getitem self idx = Raise (IndexError "Not a valid batch number!")).
Proof.
  intros HR.
  assert (Hlen : ray_dataset_len self = Ok (Z.of_nat (length (rd_ray_targets self)))).
  { unfold ray_dataset_len. by destruct (Z.leb_spec 0 (rd_num_random_rays self)); [lia|]. }
  split; [done|]. split.
  - intros i t Ht. pose proof (lookup_lt_Some _ _ _ Ht) as Hi.
    unfold llff_getitem, colmap_getitem. rewrite Hlen. cbn [mbind result_bind].
    destruct (Z.leb_spec (Z.of_nat (length (rd_ray_targets self))) (Z.of_nat i)); [lia|].
    unfold item_indices. destruct (Z.leb_spec 0 (rd_num_random_rays self)); [lia|].
    cbn [item_targets is_ok]. rewrite slice_take_drop by lia.
    replace (Z.to_nat (Z.of_nat i + 1 - Z.of_nat i)) with 1 by lia.
    rewrite Nat2Z.id. rewrite (drop_S _ _ _ Ht). done.
  - intros idx Hidx. unfold llff_getitem, colmap_getitem. rewrite Hlen.
    cbn [mbind result_bind].
    by destruct (Z.leb_spec (Z.of_nat (length (rd_ray_targets self))) idx); [|lia].
Qed.

(** X5.  Index [-1] is accepted in both modes and selects nothing: the slices
    end at 0. *)
Theorem item_minus_one (self : ray_dataset Ray Bounds Target) :
  rd_num_random_rays self <> 0%Z ->
  llff_getitem self (-1) = Ok ([], [], [], [])
  /\ colmap_getitem self (-1) = Ok ([], [], rd_ray_bounds self, []).
Proof.
  intros HR.
  assert (Hlen : exists n, ray_dataset_len self = Ok n /\ (0 <= n)%Z).
  { unfold ray_dataset_len, int_truediv.
    destruct (Z.leb_spec 0 (rd_num_random_rays self)).
    - destruct (Z.eqb_spec (rd_num_random_rays self) 0); [done|].
      eexists. split; [done|]. apply Z.quot_pos; lia.
    - eexists. split; [done|]. lia. }
  destruct Hlen as (n & Hn & Hpos).
  unfold llff_getitem, colmap_getitem. rewrite Hn. cbn [mbind result_bind].
  destruct (Z.leb_spec n (-1)); [lia|].
  unfold item_indices. destruct (0 <=? rd_num_random_rays self)%Z.
  - replace (-1 * rd_num_random_rays self + rd_num_random_rays self)%Z with 0%Z by lia.
    by rewrite !slice_to_zero.
  - change (-1 + 1)%Z with 0%Z. by rewrite !slice_to_zero.
Qed.

End WholeImages.

Lemma per_image_item_witness :
  (rd_num_random_rays three_images < 0)%Z
  /\ ray_dataset_len three_images = Ok 3%Z
  /\ (forall (i : nat) (t : Z),
        rd_ray_targets three_images !! i = Some t ->
        item_targets (llff_getitem three_images (Z.of_nat i)) = [t]
        /\ item_targets (colmap_getitem three_images (Z.of_nat i)) = [t]
        /\ is_ok (llff_getitem three_images (Z.of_nat i)) = true
        /\ is_ok (colmap_getitem three_images (Z.of_nat i)) = true)
  /\ (forall idx, (Z.of_nat (length (rd_ray_targets three_images)) <= idx)%Z ->
        llff_getitem three_images idx = Raise (IndexError "Not a valid batch number!")
        /\ colmap_getitem three_images idx = Raise (IndexError "Not a valid batch number!")).
Proof.
  split; [reflexivity|]. apply (per_image_item three_images). reflexivity.
Defined.

Lemma item_minus_one_witness :
  rd_num_random_rays pool_by_two <> 0%Z
  /\ llff_getitem pool_by_two (-1) = Ok ([], [], [], [])
  /\ colmap_getitem pool_by_two (-1) = Ok ([], [], rd_ray_bounds pool_by_two, []).
Proof.
  split; [discriminate|]. apply (item_minus_one pool_by_two). discriminate.
Defined.

(** *** ScanNet: which frames the items read *)

Section ScanNetItems.
Context {Frame : Type}.

(** X6.  With [skip = s > 0] alone and a stop inside the capture, the items are
    the frames [0, s, 2s, ...] below the stop, all of them and no other. *)
Theorem scannet_skip_items (frames : list Frame) (nrr : option Z) (start stop s : Z) :
  (0 < s)%Z ->
  (stop = -1 \/ 0 <= stop <= Z.of_nat (length frames))%Z ->
  let self := scannet_init frames nrr start stop (Some s) None in
  ((scannet_len self - 1) * s < sn_stop self <= scannet_len self * s)%Z
  /\ forall i, (0 <= i < scannet_len self)%Z ->
       (0 <= i * s < sn_stop self)%Z
       /\ exists f, frames !! Z.to_nat (i * s) = Some f /\ scannet_getitem self i = Ok f.
Proof.
  intros Hs Hstop self.
  assert (Hlen : scannet_len self = ceil_div (sn_stop self) s)
    by (apply scannet_len_skip; lia).
  assert (Hst : (0 <= sn_stop self <= Z.of_nat (length frames))%Z).
  { subst self. unfold scannet_init. cbn [sn_stop].
    destruct (Z.eqb_spec stop (-1)); lia. }
  pose proof (ceil_div_spec (sn_stop self) s Hs) as Hc. rewrite <- Hlen in Hc.
  split; [done|]. intros i Hi.
  assert (Hr : (0 <= i * s < sn_stop self)%Z) by nia.
  split; [done|].
  unfold scannet_getitem. subst self. rewrite scannet_frame_index_skip by lia.
  cbn [sn_frames scannet_init]. unfold list_get.
  destruct (Z.ltb_spec (i * s) 0); [lia|].
  destruct (Z.ltb_spec (i * s) 0); [lia|].
  destruct (lookup_lt_is_Some_2 frames (Z.to_nat (i * s))) as [f Hf]; [lia|].
  exists f. by rewrite Hf.
Qed.

(** X7.  With [skip_every = e > 0] alone, item [i] is frame [i + i // e]: the
    frames numbered [e] modulo [e + 1] are left out, the order is kept, and
    every item below the length is inside the capture. *)
Theorem scannet_skip_every_items (frames : list Frame) (nrr : option Z)
  (start stop e : Z) :
  (0 < e)%Z ->
  (stop = -1 \/ 0 <= stop <= Z.of_nat (length frames))%Z ->
  let self := scannet_init frames nrr start stop None (Some e) in
  forall i, (0 <= i < scannet_len self)%Z ->
    scannet_frame_index self i = (i + i / e)%Z
    /\ (0 <= scannet_frame_index self i < sn_stop self)%Z
    /\ (scannet_frame_index self i mod (e + 1) <> e)%Z
    /\ (scannet_frame_index self i < scannet_frame_index self (i + 1))%Z
    /\ exists f, frames !! Z.to_nat (i + i / e) = Some f /\ scannet_getitem self i = Ok f.
Proof.
  intros He Hstop self i Hi.
  assert (Hlen : scannet_len self = (sn_stop self - ceil_div (sn_stop self) e)%Z)
    by (apply scannet_len_skip_every; lia).
  assert (Hst : (0 <= sn_stop self <= Z.of_nat (length frames))%Z).
  { subst self. unfold scannet_init. cbn [sn_stop].
    destruct (Z.eqb_spec stop (-1)); lia. }
  assert (Hidx : forall j, scannet_frame_index self j = (j + j / e)%Z).
  { intros j. subst self. unfold scannet_frame_index, scannet_init.
    cbn [sn_skip sn_skip_every truthy get_or].
    destruct (Z.eqb_spec e 0); [lia|]. cbn [negb]. lia. }
  pose proof (ceil_div_spec (sn_stop self) e He) as Hc.
  pose proof (Z.div_mod i e ltac:(lia)) as Hdm.
  pose proof (Z.mod_pos_bound i e He) as Hmod.
  assert (Hq : (0 <= i / e)%Z) by (apply Z.div_pos; lia).
  assert (Hr : (0 <= i + i / e < sn_stop self)%Z) by nia.
  rewrite !Hidx. split; [done|]. split; [done|]. split; [|split].
  - replace (i + i / e)%Z with (i mod e + (i / e) * (e + 1))%Z by lia.
    rewrite Z.mod_add by lia. rewrite Z.mod_small by lia. lia.
  - pose proof (Z.div_le_mono i (i + 1) e He ltac:(lia)). lia.
  - unfold scannet_getitem. rewrite Hidx. subst self.
    cbn [sn_frames scannet_init]. unfold list_get.
    destruct (Z.ltb_spec (i + i / e) 0); [lia|].
    destruct (Z.ltb_spec (i + i / e) 0); [lia|].
    destruct (lookup_lt_is_Some_2 frames (Z.to_nat (i + i / e))) as [f Hf]; [lia|].
    exists f. by rewrite Hf.
Qed.

End ScanNetItems.

Lemma scannet_skip_items_witness :
  (0 < 3)%Z
  /\ (10 = -1 \/ 0 <= 10 <= Z.of_nat (length ten_frames))%Z
  /\ ((scannet_len (scannet_init ten_frames None 0 10 (Some 3%Z) None) - 1) * 3
       < sn_stop (scannet_init ten_frames None 0 10 (Some 3%Z) None)
       <= scannet_len (scannet_init ten_frames None 0 10 (Some 3%Z) None) * 3)%Z
  /\ forall i,
       (0 <= i < scannet_len (scannet_init ten_frames None 0 10 (Some 3%Z) None))%Z ->
       (0 <= i * 3 < sn_stop (scannet_init ten_frames None 0 10 (Some 3%Z) None))%Z
       /\ exists f, ten_frames !! Z.to_nat (i * 3) = Some f
            /\ scannet_getitem (scannet_init ten_frames None 0 10 (Some 3%Z) None) i = Ok f.
Proof.
  split; [lia|]. split; [right; vm_compute; intuition discriminate|].
  apply (scannet_skip_items ten_frames None 0 10 3); [lia|].
  right; vm_compute; intuition discriminate.
Defined.

Lemma scannet_skip_every_items_witness :
  (0 < 3)%Z
  /\ (-1 = -1 \/ 0 <= -1 <= Z.of_nat (length ten_frames))%Z
  /\ (0 <= 5 < scannet_len (scannet_init ten_frames None 0 (-1) None (Some 3%Z)))%Z
  /\ scannet_frame_index (scannet_init ten_frames None 0 (-1) None (Some 3%Z)) 5
      = (5 + 5 / 3)%Z
  /\ (0 <= scannet_frame_index (scannet_init ten_frames None 0 (-1) None (Some 3%Z)) 5
       < sn_stop (scannet_init ten_frames None 0 (-1) None (Some 3%Z)))%Z
  /\ (scannet_frame_index (scannet_init ten_frames None 0 (-1) None (Some 3%Z)) 5
       mod (3 + 1) <> 3)%Z
  /\ (scannet_frame_index (scannet_init ten_frames None 0 (-1) None (Some 3%Z)) 5
       < scannet_frame_index (scannet_init ten_frames None 0 (-1) None (Some 3%Z)) (5 + 1))%Z
  /\ exists f, ten_frames !! Z.to_nat (5 + 5 / 3) = Some f
       /\ scannet_getitem (scannet_init ten_frames None 0 (-1) None (Some 3%Z)) 5 = Ok f.
Proof.
  split; [lia|]. split; [by left|]. split; [by vm_compute|].
  apply (scannet_skip_every_items ten_frames None 0 (-1) 3); [lia|by left|by vm_compute].
Defined.

(** *** get_rays *)

Section GetRaysItems.
Context {Tensor Pose Camera Scalar : Type}.
Context (dummy_rays_simple_radial : Z -> Z -> Camera -> Scalar -> Tensor).
Context (rotate_directions : Tensor -> Pose -> Tensor).
Context (expand_origin : Pose -> Tensor -> Tensor).
Context (tstack : list Tensor -> Tensor).


End GetRaysItems.

(** *** Cache files *)

Lemma In_range (n k : Z) : In n (range k) <-> (0 <= n < k)%Z.
Proof.
  unfold range. rewrite in_map_iff. split.
  - intros (i & <- & Hi%in_seq). lia.
  - intros Hn. exists (Z.to_nat n). split; [lia|]. apply in_seq. lia.
Qed.

Lemma NoDup_range (k : Z) : NoDup (range k).
Proof.
  unfold range. apply (NoDup_fmap_2 Z.of_nat). apply NoDup_ListNoDup, seq_NoDup.
Qed.

Lemma length_range (k : Z) : length (range k) = Z.to_nat k.
Proof. unfold range. by rewrite List.length_map, length_seq. Qed.

Lemma field_table : forallb field_ok (range 10000) = true.
Proof. vm_compute. reflexivity. Qed.

Lemma field_spec (n : Z) :
  (0 <= n < 10000)%Z ->
  String.length (zfill 4 (py_str n)) = 4
  /\ field_value (zfill 4 (py_str n)) = n
  /\ startswith_sep (zfill 4 (py_str n)) = false.
Proof.
  intros Hn. pose proof field_table as Ht. rewrite forallb_forall in Ht.
  specialize (Ht n (proj2 (In_range n 10000) Hn)). unfold field_ok in Ht.
  apply andb_true_iff in Ht as [[H1%Nat.eqb_eq H2%Z.eqb_eq]%andb_true_iff H3%negb_true_iff].
  done.
Qed.

Lemma append_same_length (a a' x x' : string) :
  String.length a = String.length a' -> a +:+ x = a' +:+ x' -> a = a' /\ x = x'.
Proof.
  revert a'. induction a as [|c a IH]; intros [|c' a'] Hl Heq; try discriminate.
  - done.
  - cbn in Heq. injection Heq as -> Heq. cbn in Hl.
    destruct (IH a' ltac:(lia) Heq) as [-> ->]. done.
Qed.

Lemma startswith_sep_append (a b : string) :
  a <> EmptyString -> startswith_sep (a +:+ b) = startswith_sep a.
Proof. by destruct a. Qed.

Lemma endswith_sep_append (a b : string) :
  b <> EmptyString -> endswith_sep (a +:+ b) = endswith_sep b.
Proof.
  intros Hb. induction a as [|c a IH]; [done|].
  cbn [String.append endswith_sep]. rewrite IH.
  destruct (a +:+ b) eqn:Hab; [|done].
  destruct a; [done|discriminate].
Qed.

Lemma path_join_plain (a b : string) :
  a <> EmptyString -> endswith_sep a = false -> startswith_sep b = false ->
  path_join a b = a +:+ String "/" b.
Proof.
  intros Ha Hsep Hb. unfold path_join. rewrite Hb, Hsep.
  destruct a; [done|]. reflexivity.
Qed.

(** The split's directory is never empty and never ends in a slash. *)
Lemma split_dir_plain (cfg : caching_cfg) (type : DatasetType) :
  path_join (cache_dir cfg) (DatasetType_value type) <> EmptyString
  /\ endswith_sep (path_join (cache_dir cfg) (DatasetType_value type)) = false.
Proof.
  assert (Hv : DatasetType_value type <> EmptyString
               /\ endswith_sep (DatasetType_value type) = false
               /\ startswith_sep (DatasetType_value type) = false)
    by (by destruct type).
  destruct Hv as (Hne & He & Hs). unfold path_join. rewrite Hs.
  assert (Hnil : forall a b : string, b <> EmptyString -> a +:+ b <> EmptyString)
    by (intros [|] [|]; done).
  destruct (String.eqb (cache_dir cfg) "" || endswith_sep (cache_dir cfg)).
  - split; [by apply Hnil|]. by rewrite endswith_sep_append.
  - split; [by apply Hnil|]. rewrite endswith_sep_append by done.
    by rewrite endswith_sep_append.
Qed.

Lemma prefix_append (a b : string) : String.prefix a (a +:+ b) = true.
Proof.
  induction a as [|c a IH]; [by destruct b|].
  cbn. destruct (ascii_dec c c); done.
Qed.

Lemma save_name_plain (img_idx batch_idx : Z) :
  (0 <= img_idx < 10000)%Z -> startswith_sep (save_name img_idx batch_idx) = false.
Proof.
  intros Hi. destruct (field_spec img_idx Hi) as (Hl & _ & Hs).
  unfold save_name. destruct (negb _).
  - rewrite startswith_sep_append; [done|]. intros Hnil. by rewrite Hnil in Hl.
  - rewrite startswith_sep_append; [done|]. intros Hnil. by rewrite Hnil in Hl.
Qed.

Lemma save_name_inj (i b i' b' : Z) :
  (0 <= i < 10000)%Z -> (0 <= i' < 10000)%Z ->
  (0 <= b < 10000)%Z -> (0 <= b' < 10000)%Z ->
  save_name i b = save_name i' b' -> i = i' /\ b = b'.
Proof.
  intros Hi Hi' Hb Hb'. unfold save_name.
  destruct (Z.eqb_spec b (-1)); [lia|]. destruct (Z.eqb_spec b' (-1)); [lia|].
  cbn [negb]. intros Heq.
  destruct (field_spec i Hi) as (Li & Vi & _), (field_spec i' Hi') as (Li' & Vi' & _).
  destruct (field_spec b Hb) as (Lb & Vb & _), (field_spec b' Hb') as (Lb' & Vb' & _).
  apply append_same_length in Heq as [Hii Heq]; [|congruence].
  apply append_same_length in Heq as [Hbb _]; [|congruence].
  split; congruence.
Qed.

Lemma save_name_inj_image (i i' : Z) :
  (0 <= i < 10000)%Z -> (0 <= i' < 10000)%Z ->
  save_name i (-1) = save_name i' (-1) -> i = i'.
Proof.
  intros Hi Hi'. unfold save_name. cbn [Z.eqb negb]. intros Heq.
  destruct (field_spec i Hi) as (Li & Vi & _), (field_spec i' Hi') as (Li' & Vi' & _).
  apply append_same_length in Heq as [Hii _]; congruence.
Qed.

Lemma flat_map_bind {A B} (f : A -> list B) (l : list A) : flat_map f l = l ≫= f.
Proof. induction l as [|x l IH]; [done|]. cbn. by rewrite IH. Qed.

Lemma blender_saves_spec sample_all V type N (i b : Z) :
  In (i, b) (blender_saves sample_all V type N) ->
  (0 <= i < N)%Z
  /\ (if sample_all || is_validation type then b = (-1)%Z else (0 <= b < V)%Z).
Proof.
  unfold blender_saves. rewrite in_flat_map. intros (j & Hj%In_range & Hin).
  destruct (sample_all || is_validation type).
  - destruct Hin as [[= <- <-]|[]]. done.
  - apply in_map_iff in Hin as (c & [= <- <-] & Hc%In_range). done.
Qed.

Lemma blender_saves_NoDup sample_all V type N :
  NoDup (blender_saves sample_all V type N).
Proof.
  unfold blender_saves. rewrite flat_map_bind. apply NoDup_bind.
  - intros x1 x2 [i b] _ _ H1 H2. destruct (sample_all || is_validation type).
    + apply list_elem_of_singleton in H1, H2. congruence.
    + apply list_elem_of_In, in_map_iff in H1 as (? & [= <- _] & _).
      apply list_elem_of_In, in_map_iff in H2 as (? & [= <- _] & _). done.
  - intros x _. destruct (sample_all || is_validation type).
    + apply NoDup_singleton.
    + apply (NoDup_fmap_2 _), NoDup_range.
  - apply NoDup_range.
Qed.

Lemma blender_saves_length sample_all V type N :
  length (blender_saves sample_all V type N)
  = if sample_all || is_validation type then Z.to_nat N else Z.to_nat N * Z.to_nat V.
Proof.
  unfold blender_saves. rewrite <- (length_range N).
  induction (range N) as [|x l IH]; [by destruct (_ || _)|].
  cbn [flat_map]. rewrite length_app, IH.
  destruct (sample_all || is_validation type); [done|].
  rewrite List.length_map, length_range. cbn [length]. lia.
Qed.

(** X9.  The caching pass of [BlenderDataset] on up to 10000 images, with up to
    10000 variations each, writes pairwise different files, all directly in
    the directory of the split: one per image when [sample_all] is set or
    the split is the validation split, [num_variations] per image
    otherwise.  Past four digits two calls can share a file name. *)
Theorem blender_cache_files (cfg : caching_cfg) (sample_all : bool)
  (num_variations : Z) (type : DatasetType) (n_images : Z) :
  (n_images <= 10000)%Z -> (num_variations <= 10000)%Z ->
  let files := blender_cache_paths cfg sample_all num_variations type n_images in
  NoDup files
  /\ length files
     = (if sample_all || is_validation type then Z.to_nat n_images
        else Z.to_nat n_images * Z.to_nat num_variations)
  /\ (forall f, In f files ->
        under (path_join (cache_dir cfg) (DatasetType_value type)) f = true)
  /\ save_name 10001 1 = save_name 1000 10001.
Proof.
  intros HN HV files. subst files. unfold blender_cache_paths.
  destruct (split_dir_plain cfg type) as [Hne Hsep].
  split; [|split; [|split]].
  - apply NoDup_fmap_2_strong; [|apply blender_saves_NoDup].
    intros [i b] [i' b'] Hin%list_elem_of_In Hin'%list_elem_of_In Heq.
    apply blender_saves_spec in Hin as [Hi Hb], Hin' as [Hi' Hb'].
    unfold save_path in Heq.
    rewrite (path_join_plain _ (save_name i b)),
      (path_join_plain _ (save_name i' b')) in Heq
      by (done || apply save_name_plain; lia).
    apply Config.append_inj_l in Heq. injection Heq as Heq.
    destruct (sample_all || is_validation type).
    + subst b b'. f_equal. apply save_name_inj_image; [lia..|done].
    + destruct (save_name_inj i b i' b') as [-> ->]; [lia..|done|done].
  - by rewrite List.length_map, blender_saves_length.
  - intros f ([i b] & <- & Hin)%in_map_iff.
    apply blender_saves_spec in Hin as [Hi _]. unfold save_path, under.
    rewrite (path_join_plain _ (save_name i b))
      by (done || apply save_name_plain; lia).
    rewrite <- (Config.append_assoc _ "/" (save_name i b)). apply prefix_append.
  - vm_compute. reflexivity.
Qed.

Lemma blender_cache_files_witness :
  (2 <= 10000)%Z /\ (3 <= 10000)%Z
  /\ NoDup (blender_cache_paths
              {| use_caching := true; cache_dir := "cache"; override_caching := false |}
              false 3 TRAIN 2)
  /\ length (blender_cache_paths
               {| use_caching := true; cache_dir := "cache"; override_caching := false |}
               false 3 TRAIN 2) = 6
  /\ (forall f,
        In f (blender_cache_paths
                {| use_caching := true; cache_dir := "cache"; override_caching := false |}
                false 3 TRAIN 2) ->
        under "cache/train" f = true)
  /\ save_name 10001 1 = save_name 1000 10001.
Proof.
  split; [lia|]. split; [lia|].
  apply (blender_cache_files
           {| use_caching := true; cache_dir := "cache"; override_caching := false |}
           false 3 TRAIN 2); lia.
Defined.

Example blender_cache_paths_train :
  blender_cache_paths
    {| use_caching := true; cache_dir := "cache"; override_caching := false |}
    false 2 TRAIN 2
  = ["cache/train/00000000.data"; "cache/train/00000001.data";
     "cache/train/00010000.data"; "cache/train/00010001.data"]
  /\ blender_cache_paths
       {| use_caching := true; cache_dir := "cache"; override_caching := false |}
       false 2 VALIDATION 2
     = ["cache/val/0000.data"; "cache/val/0001.data"].
Proof. split; vm_compute; reflexivity. Qed.

(** *** Two splits on one cache directory *)






Section SecondSplit.
Context {HWF : Type}.
Context (cache_dataset_impl : gset string -> result (gset string)).
Context (load_dataset_impl : gset string -> result HWF).
Context (glob_data : gset string -> string -> list string).
Context (torch_load_hwf : gset string -> string -> result HWF).

#[local] Abbreviation init :=
  (__init__ cache_dataset_impl load_dataset_impl glob_data torch_load_hwf).



End SecondSplit.




End DatasetItems.

(** ** src/mesh_nerf.py: the sampling grid and the recoloring batches *)

Module MeshTool.

Import MeshNerf DatasetItems.

(** The argument [N] of [sample_points]: an integer or a tuple of three. *)
Inductive resolution : Type :=
| Cube (N : Z)
| Box (x y z : Z).

(** [np.linspace(-limit, limit, num)], by the number of its samples *)
Definition linspace_len (num : Z) : result Z :=
  if (num <? 0)%Z
  then Raise (ValueError ("Number of samples, " +:+ py_str num
                          +:+ ", must be non-negative."))
  else Ok num.

(** [pts_flat.reshape((-1, batch_size, 3))] on [points] rows of three: the
    size of the inferred axis. *)
Definition reshape_batches (points batch_size : Z) : result Z :=
  if (batch_size <=? 0)%Z
  then Raise (RuntimeError "shape '[-1, batch_size, 3]' is invalid for input size")
  else if (points mod batch_size =? 0)%Z then Ok (points / batch_size)%Z
  else Raise (RuntimeError "shape '[-1, batch_size, 3]' is invalid for input size").

(** [sample_points] by shapes: the number of batches the model is queried
    on and the shape of the density grid returned. *)
Definition sample_points_shape (N : resolution) (batch_size : Z)
  : result (Z * (Z * Z * Z)) :=
  '(x, y, z) ← match N with
               | Box x y z =>
                   _ ← linspace_len x; _ ← linspace_len y; _ ← linspace_len z;
                   Ok (x, y, z)
               | Cube n => _ ← linspace_len n; Ok (n, n, n)
               end;
  batches ← reshape_batches (x * y * z) batch_size;
  Ok (batches, (x, y, z)).

Definition cube_residue_ok (r : Z) : bool :=
  implb (r * r * r mod 10240 =? 0)%Z (r mod 80 =? 0)%Z.

(** The first tensor of every batch of a list, and the second. *)
Definition positions {A} (batches : list (list (list A))) : list A :=
  concat (map (fun b => nth 0 b []) batches).

Definition directions {A} (batches : list (list (list A))) : list A :=
  concat (map (fun b => nth 1 b []) batches).

(** Two vertices with their normals, over the integers. *)
Definition two_vertices : list (list Z) := [[1; 2; 3]; [4; 5; 6]]%Z.
Definition two_normals : list (list Z) := [[0; 0; 1]; [0; 1; 0]]%Z.

(** A model over the integers that accepts any batch and colors a ray by
    its origin. *)
Definition origin_model (x : list (list (list Z)))
  : result (NeRFModel.render_out (list (list Z))) :=
  let pos := nth 0 x [] in
  let nrm := nth 1 x [] in
  Ok {| NeRFModel.rgb_coarse := pos; NeRFModel.disp_coarse := [];
        NeRFModel.acc_coarse := [];
        NeRFModel.rgb_fine := Some (zip_with (fun o _ => o) pos nrm);
        NeRFModel.disp_fine := None; NeRFModel.acc_fine := None |}.

(** *** Which resolutions the sampling accepts *)

Lemma cube_residues : forallb cube_residue_ok (range 10240) = true.
Proof. vm_compute. reflexivity. Qed.

Lemma cube_divisible (N : Z) :
  ((N * N * N) mod 10240 = 0 <-> N mod 80 = 0)%Z.
Proof.
  split.
  - intros Hc. pose proof cube_residues as Ht. rewrite forallb_forall in Ht.
    pose proof (Z.mod_pos_bound N 10240 ltac:(lia)) as Hr.
    specialize (Ht (N mod 10240)%Z (proj2 (In_range _ _) Hr)).
    unfold cube_residue_ok in Ht.
    assert (Hc' : ((N mod 10240 * (N mod 10240) * (N mod 10240)) mod 10240 = 0)%Z).
    { rewrite <- Hc.
      rewrite (Z.mul_mod (N * N) N 10240), (Z.mul_mod N N 10240) by lia.
      rewrite (Z.mul_mod (N mod 10240 * (N mod 10240)) (N mod 10240) 10240) by lia.
      by rewrite (Z.mod_mod N 10240) by lia. }
    rewrite Hc' in Ht. cbn [Z.eqb implb] in Ht. apply Z.eqb_eq in Ht.
    rewrite <- Ht. symmetry. apply Z.mod_mod_divide. by exists 128%Z.
  - intros Hm. apply Z.mod_divide in Hm as [k ->]; [|lia].
    apply Z.mod_divide; [lia|]. exists (50 * k * k * k)%Z. lia.
Qed.

(** X11.  [sample_points] on a cube of [N] samples per axis returns exactly when
    [N] is a non-negative multiple of 80: the grid of [N^3] points has to
    split into whole batches of 10240.  It then queries the model on
    [N^3 / 10240] batches.  The default [--res 128] is no such number.  On a
    box the product of the three sizes has to be a multiple of 10240. *)
Theorem sample_points_resolution :
  (forall N, is_ok (sample_points_shape (Cube N) batch_size) = true
             <-> (0 <= N)%Z /\ (N mod 80 = 0)%Z)
  /\ (forall N batches grid,
        sample_points_shape (Cube N) batch_size = Ok (batches, grid) ->
        grid = (N, N, N) /\ (batches * 10240 = N * N * N)%Z)
  /\ sample_points_shape (Cube 128) batch_size
     = Raise (RuntimeError "shape '[-1, batch_size, 3]' is invalid for input size")
  /\ (forall x y z, is_ok (sample_points_shape (Box x y z) batch_size) = true
                    <-> (0 <= x)%Z /\ (0 <= y)%Z /\ (0 <= z)%Z
                        /\ ((x * y * z) mod 10240 = 0)%Z).
Proof.
  split; [|split; [|split]].
  - intros N. unfold sample_points_shape, linspace_len, reshape_batches.
    destruct (Z.ltb_spec N 0); cbn [mbind result_bind is_ok]; [split; [done|lia]|].
    change (batch_size <=? 0)%Z with false. cbv iota.
    change batch_size with 10240%Z.
    destruct (Z.eqb_spec ((N * N * N) mod 10240) 0) as [Hc|Hc]; cbn [mbind result_bind is_ok].
    + split; [|done]. intros _. split; [done|]. by apply cube_divisible.
    + split; [done|]. intros [_ Hm]. by apply cube_divisible in Hm.
  - intros N batches grid. unfold sample_points_shape, linspace_len, reshape_batches.
    destruct (Z.ltb_spec N 0); cbn [mbind result_bind]; [done|].
    change (batch_size <=? 0)%Z with false. cbv iota.
    change batch_size with 10240%Z.
    destruct (Z.eqb_spec ((N * N * N) mod 10240) 0) as [Hc|Hc]; cbn [mbind result_bind];
      [|done].
    intros [= <- <-]. split; [done|].
    pose proof (Z.div_mod (N * N * N) 10240 ltac:(lia)). lia.
  - vm_compute. reflexivity.
  - intros x y z. unfold sample_points_shape, linspace_len, reshape_batches.
    destruct (Z.ltb_spec x 0); cbn [mbind result_bind is_ok]; [split; [done|lia]|].
    destruct (Z.ltb_spec y 0); cbn [mbind result_bind is_ok]; [split; [done|lia]|].
    destruct (Z.ltb_spec z 0); cbn [mbind result_bind is_ok]; [split; [done|lia]|].
    change (batch_size <=? 0)%Z with false. cbv iota.
    change batch_size with 10240%Z.
    destruct (Z.eqb_spec ((x * y * z) mod 10240) 0) as [Hc|Hc]; cbn [mbind result_bind is_ok].
    + split; [|done]. by intros _.
    + split; [done|]. by intros (_ & _ & _ & Hm).
Qed.

(** *** The batches of the recoloring loop *)

Lemma slice_chunk {A} (l : list A) (idx n : Z) :
  n = Z.of_nat (length l) -> (0 <= idx <= n / batch_size)%Z ->
  slice l (batch_size * idx) (Z.min (batch_size * (idx + 1)) n) = chunk batch_size idx l.
Proof.
  intros Hn Hidx. change batch_size with 10240%Z in *.
  assert (Ha : (10240 * idx <= n)%Z).
  { pose proof (Z.mul_div_le n 10240 ltac:(lia)). nia. }
  rewrite slice_take_drop by lia. unfold chunk.
  replace (idx * 10240)%Z with (10240 * idx)%Z by lia.
  destruct (Z.le_gt_cases (10240 * (idx + 1)) n) as [Hle|Hgt].
  - f_equal. lia.
  - rewrite !take_ge; [done| |]; rewrite length_drop; lia.
Qed.

Lemma length_chunk {A} (l : list A) (idx : Z) :
  (0 <= idx <= Z.of_nat (length l) / batch_size)%Z ->
  Z.of_nat (length (chunk batch_size idx l))
  = if (idx <? Z.of_nat (length l) / batch_size)%Z then 10240%Z
    else (Z.of_nat (length l) mod 10240)%Z.
Proof.
  intros Hidx. change batch_size with 10240%Z in *. unfold chunk.
  rewrite length_take, length_drop.
  pose proof (Z.div_mod (Z.of_nat (length l)) 10240 ltac:(lia)) as Hdm.
  pose proof (Z.mod_pos_bound (Z.of_nat (length l)) 10240 ltac:(lia)) as Hm.
  destruct (Z.ltb_spec idx (Z.of_nat (length l) / 10240)); nia.
Qed.

Lemma chunks_all {A} (l : list A) :
  concat (map (fun idx => chunk batch_size idx l)
            (range (Z.of_nat (length l) / batch_size + 1))) = l.
Proof.
  change batch_size with 10240%Z.
  assert (Hq : (0 <= Z.of_nat (length l) / 10240)%Z) by (apply Z.div_pos; lia).
  replace (Z.of_nat (length l) / 10240 + 1)%Z
    with (Z.of_nat (Z.to_nat (Z.of_nat (length l) / 10240 + 1))) by lia.
  rewrite chunks_concat by lia. apply take_ge.
  pose proof (Z.div_mod (Z.of_nat (length l)) 10240 ltac:(lia)) as Hdm.
  pose proof (Z.mod_pos_bound (Z.of_nat (length l)) 10240 ltac:(lia)) as Hm.
  lia.
Qed.

Lemma length_reorder {A} (t : list (list A)) : length (reorder t) = length t.
Proof. unfold reorder. apply List.length_map. Qed.

Section RecolorBatches.
Context {F : Type}.
Context (fneg : F -> F) (fsub fmul fdiv : F -> F -> F) (of_int : Z -> F) (f0_001 : F).

#[local] Abbreviation origins_of vd vertices normals :=
  (ray_origins_of fsub fmul vd (reorder vertices) (reorder (map (map fneg) normals))).
#[local] Abbreviation batch_of vd vertices normals :=
  (ray_batch fsub fmul of_int f0_001 vd (reorder vertices)
     (reorder (map (map fneg) normals)) (Z.of_nat (length vertices))).

Lemma recolor_batch (vd : F) (vertices normals : list (list F)) (idx : Z) :
  length normals = length vertices ->
  (0 <= idx <= Z.of_nat (length vertices) / batch_size)%Z ->
  batch_of vd vertices normals idx
  = [chunk batch_size idx (origins_of vd vertices normals);
     chunk batch_size idx (reorder (map (map fneg) normals));
     replicate (length (chunk batch_size idx vertices)) [f0_001; fmul (of_int 2) vd]].
Proof.
  intros Hlen Hidx. unfold ray_batch.
  assert (Hinv : length (reorder (map (map fneg) normals)) = length vertices)
    by (by rewrite length_reorder, List.length_map).
  assert (Hor : length (origins_of vd vertices normals) = length vertices).
  { unfold ray_origins_of. rewrite length_zip_with, Hinv, length_reorder. lia. }
  rewrite !slice_chunk by (done || by rewrite ?Hinv, ?Hor).
  do 2 f_equal. f_equal.
  pose proof (length_chunk vertices idx Hidx) as Hc.
  change batch_size with 10240%Z in *.
  assert (Ha : (10240 * idx <= Z.of_nat (length vertices))%Z).
  { pose proof (Z.mul_div_le (Z.of_nat (length vertices)) 10240 ltac:(lia)). nia. }
  assert (Hb : (0 <= Z.min (10240 * (idx + 1)) (Z.of_nat (length vertices)) - 10240 * idx
                <= 10240)%Z) by lia.
  rewrite slice_take_drop by lia. rewrite drop_0, Z.sub_0_r.
  unfold ray_bounds_of. change batch_size with 10240%Z.
  rewrite take_replicate. f_equal.
  pose proof (Z.div_mod (Z.of_nat (length vertices)) 10240 ltac:(lia)) as Hdm.
  pose proof (Z.mod_pos_bound (Z.of_nat (length vertices)) 10240 ltac:(lia)) as Hm.
  destruct (Z.ltb_spec idx (Z.of_nat (length vertices) / 10240)); nia.
Qed.

(** X12.  The loop cuts the rays into consecutive batches of 10240: every batch
    but the last is full, the last holds the remaining [n mod 10240] rays
    (none when [n] is a multiple of 10240), with one row of bounds per ray;
    put together the batches are the rays of all vertices, in order. *)
Theorem recolor_batches (vd : F) (vertices normals : list (list F)) :
  length normals = length vertices ->
  let n := Z.of_nat (length vertices) in
  let batches := map (batch_of vd vertices normals) (range (n / batch_size + 1)) in
  (forall idx, (0 <= idx <= n / batch_size)%Z ->
     exists pos nrm bnd,
       batch_of vd vertices normals idx = [pos; nrm; bnd]
       /\ length nrm = length pos /\ length bnd = length pos
       /\ Z.of_nat (length pos)
          = if (idx <? n / batch_size)%Z then 10240%Z else (n mod 10240)%Z)
  /\ positions batches = origins_of vd vertices normals
  /\ directions batches = reorder (map (map fneg) normals).
Proof.
  intros Hlen n batches.
  assert (Hinv : length (reorder (map (map fneg) normals)) = length vertices)
    by (by rewrite length_reorder, List.length_map).
  assert (Hor : length (origins_of vd vertices normals) = length vertices).
  { unfold ray_origins_of. rewrite length_zip_with, Hinv, length_reorder. lia. }
  assert (Hmap : batches
    = map (fun idx =>
             [chunk batch_size idx (origins_of vd vertices normals);
              chunk batch_size idx (reorder (map (map fneg) normals));
              replicate (length (chunk batch_size idx vertices))
                [f0_001; fmul (of_int 2) vd]])
        (range (n / batch_size + 1))).
  { subst batches. apply map_ext_in. intros idx Hin%In_range.
    apply recolor_batch; [done|]. subst n. lia. }
  split; [|split].
  - intros idx Hidx. eexists _, _, _. split; [by apply recolor_batch|].
    assert (Hsame : forall {A B} (l : list A) (k : list B), length l = length k ->
              length (chunk batch_size idx l) = length (chunk batch_size idx k)).
    { intros A B l k Hlk. unfold chunk. rewrite !length_take, !length_drop. lia. }
    split; [apply Hsame; congruence|]. split.
    + rewrite length_replicate. apply Hsame. congruence.
    + subst n. rewrite <- Hor in Hidx |- *. by apply length_chunk.
  - unfold positions. rewrite Hmap, map_map. cbn [nth].
    subst n. rewrite <- Hor. apply chunks_all.
  - unfold directions. rewrite Hmap, map_map. cbn [nth].
    subst n. rewrite <- Hinv. apply chunks_all.
Qed.

(** X13.  A model that accepts the triple and colors every ray from its origin
    and direction makes the loop return one color per vertex, in the order
    of the vertices. *)
Theorem recolor_colors
  (model : list (list (list F)) -> result (NeRFModel.render_out (list (list F))))
  (shade : list F -> list F -> list F)
  (vertices normals : list (list F)) (limit : F) (N : Z) :
  N <> 0%Z ->
  length normals = length vertices ->
  (forall pos nrm bnd, exists r,
      model [pos; nrm; bnd] = Ok r
      /\ NeRFModel.rgb_fine r = Some (zip_with shade pos nrm)) ->
  recolor fneg fsub fmul fdiv of_int f0_001 model vertices normals limit N
  = Ok (zip_with shade
          (origins_of (fdiv (fmul (of_int 2) limit) (of_int N)) vertices normals)
          (reorder (map (map fneg) normals)))
  /\ length (zip_with shade
               (origins_of (fdiv (fmul (of_int 2) limit) (of_int N)) vertices normals)
               (reorder (map (map fneg) normals))) = length vertices.
Proof.
  intros HN Hlen Hmodel.
  assert (Hinv : length (reorder (map (map fneg) normals)) = length vertices)
    by (by rewrite length_reorder, List.length_map).
  set (vd := fdiv (fmul (of_int 2) limit) (of_int N)).
  assert (Hor : length (origins_of vd vertices normals) = length vertices).
  { unfold ray_origins_of. rewrite length_zip_with, Hinv, length_reorder. lia. }
  split; [|rewrite length_zip_with, Hor, Hinv; lia].
  unfold recolor, view_disparity. destruct (Z.eqb_spec N 0) as [|_]; [done|].
  cbn [mbind result_bind]. fold vd. rewrite length_reorder.
  set (colors := zip_with shade (origins_of vd vertices normals)
                   (reorder (map (map fneg) normals))).
  assert (Hfold : forall idxs acc0,
    (forall idx, In idx idxs ->
       (0 <= idx <= Z.of_nat (length vertices) / batch_size)%Z) ->
    fold_left
      (fun acc idx =>
         pred ← acc;
         out ← model (batch_of vd vertices normals idx);
         diffuse ← match NeRFModel.rgb_fine out with
                   | Some dcol => Ok dcol
                   | None => Raise (AttributeError "cpu")
                   end;
         Ok (pred ++ [diffuse])) idxs (Ok acc0)
    = Ok (acc0 ++ map (fun idx => chunk batch_size idx colors) idxs)).
  { induction idxs as [|idx idxs IH]; intros acc0 Hin; [by rewrite app_nil_r|].
    cbn [fold_left mbind result_bind].
    rewrite recolor_batch by (done || apply Hin; by left).
    destruct (Hmodel (chunk batch_size idx (origins_of vd vertices normals))
                (chunk batch_size idx (reorder (map (map fneg) normals)))
                (replicate (length (chunk batch_size idx vertices))
                   [f0_001; fmul (of_int 2) vd])) as (r & Hr & Hd).
    rewrite Hr. cbn [mbind result_bind]. rewrite Hd. cbn [mbind result_bind].
    rewrite IH by (intros i Hi; apply Hin; by right).
    rewrite <- app_assoc. do 2 f_equal. cbn [map app]. f_equal.
    subst colors. unfold chunk. by rewrite zip_with_drop, zip_with_take. }
  rewrite Hfold.
  - cbn [mbind result_bind app]. f_equal.
    assert (Hc : length colors = length vertices).
    { subst colors. rewrite length_zip_with, Hor, Hinv. lia. }
    rewrite <- Hc. apply chunks_all.
  - intros idx Hin%In_range. lia.
Qed.

End RecolorBatches.

Lemma recolor_batches_witness :
  length two_normals = length two_vertices
  /\ (forall idx, (0 <= idx <= Z.of_nat (length two_vertices) / batch_size)%Z ->
       exists pos nrm bnd,
         ray_batch Z.sub Z.mul id 1%Z 1%Z (reorder two_vertices)
           (reorder (map (map Z.opp) two_normals)) (Z.of_nat (length two_vertices)) idx
         = [pos; nrm; bnd]
         /\ length nrm = length pos /\ length bnd = length pos
         /\ Z.of_nat (length pos)
            = if (idx <? Z.of_nat (length two_vertices) / batch_size)%Z then 10240%Z
              else (Z.of_nat (length two_vertices) mod 10240)%Z)
  /\ positions
       (map (ray_batch Z.sub Z.mul id 1%Z 1%Z (reorder two_vertices)
               (reorder (map (map Z.opp) two_normals)) (Z.of_nat (length two_vertices)))
          (range (Z.of_nat (length two_vertices) / batch_size + 1)))
     = ray_origins_of Z.sub Z.mul 1%Z (reorder two_vertices)
         (reorder (map (map Z.opp) two_normals))
  /\ directions
       (map (ray_batch Z.sub Z.mul id 1%Z 1%Z (reorder two_vertices)
               (reorder (map (map Z.opp) two_normals)) (Z.of_nat (length two_vertices)))
          (range (Z.of_nat (length two_vertices) / batch_size + 1)))
     = reorder (map (map Z.opp) two_normals).
Proof.
  split; [reflexivity|].
  apply (recolor_batches Z.opp Z.sub Z.mul id 1%Z 1%Z two_vertices two_normals).
  reflexivity.
Defined.

Lemma recolor_colors_witness :
  2%Z <> 0%Z
  /\ length two_normals = length two_vertices
  /\ recolor Z.opp Z.sub Z.mul Z.div id 1%Z origin_model two_vertices two_normals 1%Z 2
     = Ok (zip_with (fun o _ => o)
             (ray_origins_of Z.sub Z.mul (2 * 1 / 2)%Z (reorder two_vertices)
                (reorder (map (map Z.opp) two_normals)))
             (reorder (map (map Z.opp) two_normals)))
  /\ length (zip_with (fun (o _ : list Z) => o)
               (ray_origins_of Z.sub Z.mul (2 * 1 / 2)%Z (reorder two_vertices)
                  (reorder (map (map Z.opp) two_normals)))
               (reorder (map (map Z.opp) two_normals))) = length two_vertices.
Proof.
  split; [lia|]. split; [reflexivity|].
  apply (recolor_colors Z.opp Z.sub Z.mul Z.div id 1%Z origin_model (fun o _ => o)
           two_vertices two_normals 1%Z 2); [lia|reflexivity|].
  intros pos nrm bnd. eexists. split; reflexivity.
Defined.

Example recolor_two_vertices :
  recolor Z.opp Z.sub Z.mul Z.div id 1%Z origin_model two_vertices two_normals 1%Z 2
  = Ok [[2; 1; 4]; [6; 4; 6]]%Z.
Proof. vm_compute. reflexivity. Qed.

End MeshTool.

(** ** src/model_nerf.py: the steps on the batches the datasets produce *)

Module Lightning.

Import NeRFModel Datasets.

(** The ScanNet datasets [train_dataloader] and [val_dataloader] build on a
    capture, by the arguments that decide which frames are read. *)
Definition scannet_train_dataset {Frame} (frames : list Frame) (num_random_rays : option Z)
  : scannet Frame :=
  scannet_init frames num_random_rays 0 1000 None (Some 10000%Z).

Definition scannet_val_dataset {Frame} (frames : list Frame) : scannet Frame :=
  scannet_init frames None 0 10 (Some 100%Z) None.

Section StepArity.
Context {Tensor Scalar : Type} `{TorchOps Tensor Scalar}.



End StepArity.

(** X16.  The training set of a ScanNet capture has 999 items whatever the
    capture holds: item [i] is frame [i], and a capture of fewer frames
    raises [IndexError] at the items past its end.  The validation set is
    one item, frame 0, which is also the first training item. *)
Theorem scannet_loaders {Frame} (frames : list Frame) (num_random_rays : option Z) :
  scannet_len (scannet_train_dataset frames num_random_rays) = 999%Z
  /\ scannet_len (scannet_val_dataset frames) = 1%Z
  /\ (forall i, (0 <= i < 999)%Z ->
        scannet_getitem (scannet_train_dataset frames num_random_rays) i
        = list_get frames i)
  /\ scannet_getitem (scannet_val_dataset frames) 0
     = scannet_getitem (scannet_train_dataset frames num_random_rays) 0
  /\ (forall i, (Z.of_nat (length frames) <= i < 999)%Z ->
        scannet_getitem (scannet_train_dataset frames num_random_rays) i
        = Raise (IndexError "list index out of range")).
Proof.
  assert (Hitem : forall i, (0 <= i < 999)%Z ->
    scannet_getitem (scannet_train_dataset frames num_random_rays) i = list_get frames i).
  { intros i Hi. unfold scannet_getitem, scannet_train_dataset, scannet_frame_index.
    cbn [scannet_init sn_frames sn_skip sn_skip_every truthy get_or Z.eqb negb].
    rewrite Z.div_small by lia. f_equal. lia. }
  split; [reflexivity|]. split; [reflexivity|]. split; [done|]. split.
  - rewrite Hitem by lia. reflexivity.
  - intros i Hi. rewrite Hitem by lia. unfold list_get.
    destruct (Z.ltb_spec i 0); [lia|]. destruct (Z.ltb_spec i 0); [lia|].
    rewrite lookup_ge_None_2 by lia. done.
Qed.

End Lightning.

(** ** src/model_nerf.py: hyperparameters as a flat configuration *)

Module Hparams.

Import Config.


Section FlatKeys.
Context {V : Type} (c : ascii).

#[local] Abbreviation sep := (String c EmptyString).
#[local] Abbreviation joined :=
  (fun pv : list string * V => (String.concat sep pv.1, pv.2)).

Lemma leaves_entry_path k (v : cfg_value V) pv :
  In pv (leaves_entry k v) -> exists p, pv.1 = k :: p.
Proof.
  destruct v as [x|d]; cbn [leaves_entry].
  - intros [<-|[]]. by exists [].
  - intros (px & <- & _)%in_map_iff. by eexists.
Qed.

Lemma leaves_path k (d : list (string * cfg_value V)) pv :
  In pv (leaves d) -> String.concat sep (k :: pv.1) = k +:+ String c (String.concat sep pv.1).
Proof.
  unfold leaves. intros ([k' v'] & _ & Hin)%in_flat_map.
  apply leaves_entry_path in Hin as [p ->]. reflexivity.
Qed.

Lemma flatten_entry_paths (v : cfg_value V) k :
  k <> EmptyString -> wf_value c v = true ->
  flatten_entry EmptyString sep k v = map joined (leaves_entry k v).
Proof.
  revert k. induction v as [x|d IH] using cfg_value_ind'; intros k Hk Hwf; [done|].
  rewrite flatten_entry_mapping, flatten_dict_wf by done.
  apply wf_value_mapping in Hwf as [_ Hok].
  assert (Hd : flat_map (fun kv => flatten_entry EmptyString sep kv.1 kv.2) d
               = map joined (leaves d)).
  { unfold leaves. induction d as [|[k' v'] d IHd]; [done|].
    apply Forall_cons in IH as [IH1 IH2]. apply Forall_cons in Hok as [Hok1 Hok2].
    destruct Hok1 as (Hk' & _ & Hwf'). cbn [flat_map fst snd] in *.
    rewrite map_app, IH1, IHd by done. done. }
  rewrite Hd. cbn [leaves_entry]. fold (leaves d). unfold map_key.
  rewrite !map_map. apply map_ext_in. intros pv Hin. cbn [fst snd].
  by rewrite (leaves_path k d pv Hin).
Qed.

(** X17.  For keys that are distinct, non-empty and free of the separator,
    [flatten_dict] lists the leaves in their order, each under its key path
    joined by the separator. *)
Theorem flatten_dict_paths (cfg : list (string * cfg_value V)) :
  wf_cfg c cfg = true ->
  flatten_dict cfg "" sep = map joined (leaves cfg)
  /\ length (flatten_dict cfg "" sep) = length (leaf_values cfg).
Proof.
  intros Hwf.
  assert (Hflat : flatten_dict cfg "" sep = map joined (leaves cfg)).
  { rewrite flatten_dict_wf by done.
    apply wf_value_mapping in Hwf as [_ Hok]. unfold leaves.
    induction cfg as [|[k v] cfg IH]; [done|].
    apply Forall_cons in Hok as [(Hk & _ & Hwf) Hok]. cbn [flat_map fst snd] in *.
    rewrite map_app, flatten_entry_paths, IH by done. done. }
  split; [done|]. rewrite Hflat. unfold leaf_values. by rewrite !List.length_map.
Qed.

(** *** Nesting any flat dictionary *)










End FlatKeys.


Lemma flatten_dict_paths_witness :
  wf_cfg "." cfg_dotted = true
  /\ flatten_dict cfg_dotted "" "."
     = [("nerf.train.perturb", 1%Z); ("nerf.train.chunksize", 2%Z);
        ("nerf.validation.perturb", 0%Z); ("dataset.near", 2%Z); ("dataset.far", 6%Z)]
  /\ length (flatten_dict cfg_dotted "" ".") = length (leaf_values cfg_dotted).
Proof.
  split; [reflexivity|]. apply (flatten_dict_paths "." cfg_dotted). reflexivity.
Defined.



End Hparams.

(** ** src/nerf/models.py: the layer widths of [FlexibleNeRFModel] *)

Module FlexibleShapes.

(** [torch.nn.Linear(in_features, out_features)], by its two sizes *)
Record linear : Type := {
  in_features : Z;
  out_features : Z
}.

Definition Linear (i o : Z) : result linear :=
  if (i <? 0)%Z || (o <? 0)%Z
  then Raise (RuntimeError "Trying to create tensor with negative dimension")
  else Ok {| in_features := i; out_features := o |}.

(** A layer applied to a tensor whose last axis has [width] entries: the
    width of the result. *)
Definition apply_linear (l : linear) (width : Z) : result Z :=
  if (width =? in_features l)%Z then Ok (out_features l)
  else Raise (RuntimeError "mat1 and mat2 shapes cannot be multiplied").

(** The attributes of an instance; the heads exist on one side of
    [use_viewdirs] only. *)
Record FlexibleNeRFModel : Type := {
  dim_xyz : Z;
  dim_dir : Z;
  skip_connect_every : Z;
  num_layers : Z;
  layer1 : linear;
  layers_xyz : list linear;
  use_viewdirs : bool;
  layers_dir : option (list linear);
  fc_alpha : option linear;
  fc_rgb : option linear;
  fc_feat : option linear;
  fc_out : option linear
}.

(** [i % skip_connect_every == 0 and i > 0 and i != num_layers - 1] *)
Definition skip_here (skip num_layers i : Z) : result bool :=
  if (skip =? 0)%Z then Raise ZeroDivisionError
  else Ok ((i mod skip =? 0)%Z && (0 <? i)%Z && negb (i =? num_layers - 1)%Z).

(** The loop of [__init__] that fills [layers_xyz]. *)
Fixpoint build_layers (dim_xyz hidden_size skip num_layers : Z) (idxs : list Z)
  : result (list linear) :=
  match idxs with
  | [] => Ok []
  | i :: rest =>
      wide ← skip_here skip num_layers i;
      layer ← (if (wide : bool) then Linear (dim_xyz + hidden_size) hidden_size
               else Linear hidden_size hidden_size);
      layers ← build_layers dim_xyz hidden_size skip num_layers rest;
      Ok (layer :: layers)
  end.

(** [FlexibleNeRFModel.__init__]; the positional encodings turn three
    coordinates into [dim_xyz] and [dim_dir] channels. *)
Definition FlexibleNeRFModel_init (num_layers hidden_size skip_connect_every
  num_encoding_fn_xyz num_encoding_fn_dir : Z)
  (include_input_xyz include_input_dir use_viewdirs : bool) : result FlexibleNeRFModel :=
  let include_input_xyz := if include_input_xyz then 3%Z else 0%Z in
  let include_input_dir := if include_input_dir then 3%Z else 0%Z in
  let dim_xyz := (include_input_xyz + 2 * 3 * num_encoding_fn_xyz)%Z in
  let dim_dir := (include_input_dir + 2 * 3 * num_encoding_fn_dir)%Z in
  let dim_dir := if negb use_viewdirs then 0%Z else dim_dir in
  layer1 ← Linear dim_xyz hidden_size;
  layers_xyz ← build_layers dim_xyz hidden_size skip_connect_every num_layers
                  (range (num_layers - 1));
  if use_viewdirs then
    layer_dir ← Linear (dim_dir + hidden_size) (hidden_size / 2);
    fc_alpha ← Linear hidden_size 1;
    fc_rgb ← Linear (hidden_size / 2) 3;
    fc_feat ← Linear hidden_size hidden_size;
    Ok {| dim_xyz := dim_xyz; dim_dir := dim_dir;
          skip_connect_every := skip_connect_every; num_layers := num_layers;
          layer1 := layer1; layers_xyz := layers_xyz; use_viewdirs := true;
          layers_dir := Some [layer_dir]; fc_alpha := Some fc_alpha;
          fc_rgb := Some fc_rgb; fc_feat := Some fc_feat; fc_out := None |}
  else
    fc_out ← Linear hidden_size 4;
    Ok {| dim_xyz := dim_xyz; dim_dir := dim_dir;
          skip_connect_every := skip_connect_every; num_layers := num_layers;
          layer1 := layer1; layers_xyz := layers_xyz; use_viewdirs := false;
          layers_dir := None; fc_alpha := None; fc_rgb := None; fc_feat := None;
          fc_out := Some fc_out |}.

(** The loop of [forward] over [enumerate(self.layers_xyz)], from index
    [i] on; [torch.cat((x, xyz), dim=-1)] adds the widths. *)
Fixpoint layers_forward (self : FlexibleNeRFModel) (i : Z) (layers : list linear) (x : Z)
  : result Z :=
  match layers with
  | [] => Ok x
  | layer :: rest =>
      wide ← skip_here (skip_connect_every self) (num_layers self) i;
      let x := if (wide : bool) then (x + dim_xyz self)%Z else x in
      x ← apply_linear layer x;
      layers_forward self (i + 1) rest x
  end.

(** [forward], by the width of the last axis; [view] is the outcome of
    [self.encode_dir(ray_directions)]. *)
Definition FlexibleNeRFModel_forward (self : FlexibleNeRFModel) (view : result Z)
  : result Z :=
  let xyz := dim_xyz self in
  x ← apply_linear (layer1 self) xyz;
  x ← layers_forward self 0 (layers_xyz self) x;
  if use_viewdirs self then
    view ← view;
    fc_feat ← Models.attr "fc_feat" (fc_feat self);
    feat ← apply_linear fc_feat x;
    fc_alpha ← Models.attr "fc_alpha" (fc_alpha self);
    alpha ← apply_linear fc_alpha x;
    let x := (feat + view)%Z in
    layers_dir ← Models.attr "layers_dir" (layers_dir self);
    x ← fold_left (fun acc l => x ← acc; apply_linear l x) layers_dir (Ok x);
    fc_rgb ← Models.attr "fc_rgb" (fc_rgb self);
    rgb ← apply_linear fc_rgb x;
    Ok (rgb + alpha)%Z
  else
    fc_out ← Models.attr "fc_out" (fc_out self);
    apply_linear fc_out x.

(** *** The widths [__init__] builds are the widths [forward] feeds *)

Lemma Linear_ok (i o : Z) :
  (0 <= i)%Z -> (0 <= o)%Z -> Linear i o = Ok {| in_features := i; out_features := o |}.
Proof.
  intros Hi Ho. unfold Linear.
  destruct (Z.ltb_spec i 0); [lia|]. by destruct (Z.ltb_spec o 0); [lia|].
Qed.

Lemma apply_linear_ok (i o : Z) :
  apply_linear {| in_features := i; out_features := o |} i = Ok o.
Proof. unfold apply_linear. cbn. by rewrite Z.eqb_refl. Qed.

Lemma layers_forward_ext (self self' : FlexibleNeRFModel) (i : Z) (layers : list linear)
  (x : Z) :
  dim_xyz self = dim_xyz self' ->
  skip_connect_every self = skip_connect_every self' ->
  num_layers self = num_layers self' ->
  layers_forward self i layers x = layers_forward self' i layers x.
Proof.
  intros H1 H2 H3. revert i x. induction layers as [|l layers IH]; intros i x; [done|].
  cbn [layers_forward]. rewrite H1, H2, H3.
  destruct (skip_here _ _ i) as [wide|]; [|done]. cbn [mbind result_bind].
  destruct (apply_linear l _); [|done]. cbn [mbind result_bind]. apply IH.
Qed.

Lemma build_layers_forward (self : FlexibleNeRFModel) (hidden_size : Z) (n a : nat) :
  (0 <= hidden_size)%Z -> (0 <= dim_xyz self)%Z ->
  skip_connect_every self <> 0%Z ->
  exists layers,
    build_layers (dim_xyz self) hidden_size (skip_connect_every self) (num_layers self)
      (map Z.of_nat (seq a n)) = Ok layers
    /\ length layers = n
    /\ layers_forward self (Z.of_nat a) layers hidden_size = Ok hidden_size.
Proof.
  intros Hh Hd Hskip. revert a. induction n as [|n IH]; intros a; [by exists []|].
  destruct (IH (S a)) as (layers & Hb & Hlen & Hf).
  cbn [seq map build_layers]. unfold skip_here at 1.
  destruct (Z.eqb_spec (skip_connect_every self) 0) as [|_]; [done|].
  cbn [mbind result_bind]. rewrite Hb.
  set (wide := ((Z.of_nat a mod skip_connect_every self =? 0)%Z && (0 <? Z.of_nat a)%Z
                && negb (Z.of_nat a =? num_layers self - 1)%Z)).
  assert (Hstep : forall l, layers_forward self (Z.of_nat a) (l :: layers) hidden_size
            = (x ← apply_linear l (if wide then (hidden_size + dim_xyz self)%Z
                                     else hidden_size);
               layers_forward self (Z.of_nat (S a)) layers x)).
  { intros l. cbn [layers_forward]. unfold skip_here.
    destruct (Z.eqb_spec (skip_connect_every self) 0) as [|_]; [done|].
    cbn [mbind result_bind]. fold wide.
    replace (Z.of_nat a + 1)%Z with (Z.of_nat (S a)) by lia. done. }
  destruct wide.
  - rewrite Linear_ok by lia. cbn [mbind result_bind]. eexists. split; [done|].
    split; [cbn [length]; by rewrite Hlen|].
    rewrite Hstep. replace (hidden_size + dim_xyz self)%Z
      with (dim_xyz self + hidden_size)%Z by lia.
    rewrite apply_linear_ok. done.
  - rewrite Linear_ok by lia. cbn [mbind result_bind]. eexists. split; [done|].
    split; [cbn [length]; by rewrite Hlen|].
    rewrite Hstep, apply_linear_ok. done.
Qed.

(** X20.  For non-negative sizes and a non-zero [skip_connect_every] (or at
    most one layer) the constructor returns, with [num_layers - 1] hidden
    layers, and [forward] never meets a layer of the wrong width: it
    returns four channels, with or without view directions. *)
Theorem flexible_widths (num_layers hidden_size skip_connect_every
  num_encoding_fn_xyz num_encoding_fn_dir : Z)
  (include_input_xyz include_input_dir use_viewdirs : bool) :
  (0 <= hidden_size)%Z -> (0 <= num_encoding_fn_xyz)%Z -> (0 <= num_encoding_fn_dir)%Z ->
  skip_connect_every <> 0%Z \/ (num_layers <= 1)%Z ->
  exists self,
    FlexibleNeRFModel_init num_layers hidden_size skip_connect_every
      num_encoding_fn_xyz num_encoding_fn_dir
      include_input_xyz include_input_dir use_viewdirs = Ok self
    /\ length (layers_xyz self) = Z.to_nat (num_layers - 1)
    /\ dim_xyz self
       = ((if include_input_xyz then 3 else 0) + 6 * num_encoding_fn_xyz)%Z
    /\ FlexibleNeRFModel_forward self (Ok (dim_dir self)) = Ok 4%Z.
Proof.
  intros Hh Hx Hd Hskip. unfold FlexibleNeRFModel_init.
  set (dx := ((if include_input_xyz then 3 else 0) + 2 * 3 * num_encoding_fn_xyz)%Z).
  set (dd := if negb use_viewdirs then 0%Z
             else ((if include_input_dir then 3 else 0) + 2 * 3 * num_encoding_fn_dir)%Z).
  assert (Hdx : (0 <= dx)%Z) by (subst dx; destruct include_input_xyz; lia).
  assert (Hdd : (0 <= dd)%Z)
    by (subst dd; destruct use_viewdirs, include_input_dir; cbn; lia).
  assert (Hhalf : (0 <= hidden_size / 2)%Z) by (apply Z.div_pos; lia).
  rewrite Linear_ok by lia. cbn [mbind result_bind].
  assert (Hlayers : forall self, dim_xyz self = dx ->
            FlexibleShapes.skip_connect_every self = skip_connect_every ->
            FlexibleShapes.num_layers self = num_layers ->
            exists layers,
              build_layers dx hidden_size skip_connect_every num_layers
                (range (num_layers - 1)) = Ok layers
              /\ length layers = Z.to_nat (num_layers - 1)
              /\ layers_forward self 0 layers hidden_size = Ok hidden_size).
  { intros self H1 H2 H3. destruct Hskip as [Hskip|Hone].
    - destruct (build_layers_forward self hidden_size (Z.to_nat (num_layers - 1)) 0)
        as (layers & Hb & Hl & Hf); [lia|lia|congruence|].
      rewrite H1, H2, H3 in Hb. by exists layers.
    - unfold range. replace (Z.to_nat (num_layers - 1)) with 0 by lia. by exists []. }
  destruct use_viewdirs.
  - set (mk := fun layers =>
        {| dim_xyz := dx; dim_dir := dd;
           FlexibleShapes.skip_connect_every := skip_connect_every;
           FlexibleShapes.num_layers := num_layers;
           layer1 := {| in_features := dx; out_features := hidden_size |};
           layers_xyz := layers; FlexibleShapes.use_viewdirs := true;
           layers_dir := Some [{| in_features := dd + hidden_size;
                                  out_features := hidden_size / 2 |}];
           fc_alpha := Some {| in_features := hidden_size; out_features := 1 |};
           fc_rgb := Some {| in_features := hidden_size / 2; out_features := 3 |};
           fc_feat := Some {| in_features := hidden_size; out_features := hidden_size |};
           fc_out := None |}).
    destruct (Hlayers (mk []) eq_refl eq_refl eq_refl) as (layers & Hb & Hl & Hf).
    rewrite Hb. cbn [mbind result_bind]. rewrite !Linear_ok by lia.
    cbn [mbind result_bind]. exists (mk layers).
    split; [done|]. split; [done|]. split; [subst dx; cbn; lia|].
    unfold FlexibleNeRFModel_forward. cbn [mk dim_xyz layer1 layers_xyz].
    rewrite apply_linear_ok. cbn [mbind result_bind].
    rewrite (layers_forward_ext (mk layers) (mk [])) by done.
    rewrite Hf. unfold mk.
    cbn [mbind result_bind FlexibleShapes.use_viewdirs dim_dir fc_feat
           fc_alpha layers_dir fc_rgb Models.attr].
    rewrite !apply_linear_ok. cbn [mbind result_bind fold_left].
    replace (hidden_size + dd)%Z with (dd + hidden_size)%Z by lia.
    rewrite apply_linear_ok. cbn [mbind result_bind].
    rewrite apply_linear_ok. done.
  - set (mk := fun layers =>
        {| dim_xyz := dx; dim_dir := dd;
           FlexibleShapes.skip_connect_every := skip_connect_every;
           FlexibleShapes.num_layers := num_layers;
           layer1 := {| in_features := dx; out_features := hidden_size |};
           layers_xyz := layers; FlexibleShapes.use_viewdirs := false;
           layers_dir := None; fc_alpha := None; fc_rgb := None; fc_feat := None;
           fc_out := Some {| in_features := hidden_size; out_features := 4 |} |}).
    destruct (Hlayers (mk []) eq_refl eq_refl eq_refl) as (layers & Hb & Hl & Hf).
    rewrite Hb. cbn [mbind result_bind]. rewrite !Linear_ok by lia.
    cbn [mbind result_bind]. exists (mk layers).
    split; [done|]. split; [done|]. split; [subst dx; cbn; lia|].
    unfold FlexibleNeRFModel_forward. cbn [mk dim_xyz layer1 layers_xyz].
    rewrite apply_linear_ok. cbn [mbind result_bind].
    rewrite (layers_forward_ext (mk layers) (mk [])) by done.
    rewrite Hf. unfold mk.
    cbn [mbind result_bind FlexibleShapes.use_viewdirs fc_out Models.attr].
    by rewrite apply_linear_ok.
Qed.

(** X21.  With [skip_connect_every = 0] and two layers or more the constructor
    divides by zero in its first loop test. *)
Theorem flexible_skip_zero (num_layers hidden_size num_encoding_fn_xyz
  num_encoding_fn_dir : Z) (include_input_xyz include_input_dir use_viewdirs : bool) :
  (2 <= num_layers)%Z -> (0 <= hidden_size)%Z -> (0 <= num_encoding_fn_xyz)%Z ->
  FlexibleNeRFModel_init num_layers hidden_size 0
    num_encoding_fn_xyz num_encoding_fn_dir
    include_input_xyz include_input_dir use_viewdirs = Raise ZeroDivisionError.
Proof.
  intros Hn Hh Hx. unfold FlexibleNeRFModel_init.
  set (dx := ((if include_input_xyz then 3 else 0) + 2 * 3 * num_encoding_fn_xyz)%Z).
  assert (Hdx : (0 <= dx)%Z) by (subst dx; destruct include_input_xyz; lia).
  rewrite (Linear_ok dx hidden_size) by lia. cbn [mbind result_bind].
  unfold range. destruct (Z.to_nat (num_layers - 1)) as [|n] eqn:Hnat; [lia|].
  reflexivity.
Qed.

Lemma flexible_widths_witness :
  (0 <= 128)%Z /\ (0 <= 6)%Z /\ (0 <= 4)%Z /\ (4%Z <> 0%Z \/ (8 <= 1)%Z)
  /\ exists self,
       FlexibleNeRFModel_init 8 128 4 6 4 true true true = Ok self
       /\ length (layers_xyz self) = Z.to_nat (8 - 1)
       /\ dim_xyz self = (3 + 6 * 6)%Z
       /\ FlexibleNeRFModel_forward self (Ok (dim_dir self)) = Ok 4%Z.
Proof.
  split; [lia|]. split; [lia|]. split; [lia|]. split; [left; lia|].
  apply (flexible_widths 8 128 4 6 4 true true true); [lia|lia|lia|left; lia].
Defined.

Lemma flexible_skip_zero_witness :
  (2 <= 4)%Z /\ (0 <= 128)%Z /\ (0 <= 6)%Z
  /\ FlexibleNeRFModel_init 4 128 0 6 4 true true true = Raise ZeroDivisionError.
Proof.
  split; [lia|]. split; [lia|]. split; [lia|].
  apply (flexible_skip_zero 4 128 6 4 true true true); lia.
Defined.

(** The widths of the layers of the default construction with eight
    layers: the layer after the skip connection is wider. *)
Example flexible_default_layers :
  (self ← FlexibleNeRFModel_init 8 128 4 6 4 true true true; Ok (layers_xyz self))
  = Ok [ {| in_features := 128; out_features := 128 |};
         {| in_features := 128; out_features := 128 |};
         {| in_features := 128; out_features := 128 |};
         {| in_features := 128; out_features := 128 |};
         {| in_features := 167; out_features := 128 |};
         {| in_features := 128; out_features := 128 |};
         {| in_features := 128; out_features := 128 |} ].
Proof. vm_compute. reflexivity. Qed.

End FlexibleShapes.
